(** * create-state-machine: the transition primitive of [index.js]

    The repository is one function, [createStateMachine], which closes over
    a single mutable variable [currentState] and returns an object with the
    two methods [handle] and [invoke].  This development embeds that
    function and proves the ordering, frame and failure properties of a
    transition.

    Layout of the embedding:
    - JavaScript values, the four operations the source performs on a
      state ([!==], truthiness, member lookup, call);
    - a monad [M] for the source's effects: the private variable, the heap
      of objects, exceptions, and a log of what happened;
    - [handle], [invoke] and [createStateMachine], line by line;
    - host code (reducers, hooks, event handlers) as programs that may call
      back into the machine, run with fuel;
    - the code printed in [README.md]: its own [createStateMachine] with
      [getState] and [setState], and the message buffer written twice,
      with three variables and with that machine. *)

From Stdlib Require Import ZArith.
From stdpp Require Import gmap strings list.

Open Scope string_scope.
Open Scope list_scope.

(** ** Values *)

(** Objects (functions included) are known by their address: two objects
    with the same members are still two objects. *)
Definition loc := positive.

(** Numbers: an integer stands for a number value other than NaN (both
    zeros are [VNum 0]; [!==], truthiness and member lookup do not tell
    the two apart, nor a fraction from a nonzero integer). *)
Inductive value : Type :=
| VUndefined
| VNull
| VBool (b : bool)
| VNum (n : Z)
| VNaN
| VStr (s : string)
| VObj (l : loc).

#[global] Instance value_eq_dec : EqDecision value.
Proof. solve_decision. Defined.

(** [a === b]. *)
Definition strict_eq (a b : value) : bool :=
  match a, b with
  | VUndefined, VUndefined => true
  | VNull, VNull => true
  | VBool x, VBool y => bool_decide (x = y)
  | VNum x, VNum y => bool_decide (x = y)
  | VStr x, VStr y => bool_decide (x = y)
  | VObj x, VObj y => bool_decide (x = y)
  | _, _ => false
  end.

(** [a !== b]. *)
Definition strict_neq (a b : value) : bool := negb (strict_eq a b).

(** ToBoolean, as [if (v)] and [v && ...] apply it. *)
Definition truthy (v : value) : bool :=
  match v with
  | VUndefined | VNull | VNaN => false
  | VBool b => b
  | VNum n => negb (bool_decide (n = 0%Z))
  | VStr s => negb (bool_decide (s = EmptyString))
  | VObj _ => true
  end.

(** ** The heap *)

(** An object is the finite map of the members that lookup finds on it,
    inherited ones included (accessors are not modelled). *)
Abbreviation object := (gmap string value).
Abbreviation heap_t := (gmap loc object).

(** Members of a primitive are those of the prototype of its kind (the
    [length] and the characters of a string are left out). *)
Definition Boolean_prototype : loc := 1%positive.
Definition Number_prototype : loc := 2%positive.
Definition String_prototype : loc := 3%positive.

(** Where the members of [v] live; [null] and [undefined] have none. *)
Definition holder (v : value) : option loc :=
  match v with
  | VUndefined | VNull => None
  | VBool _ => Some Boolean_prototype
  | VNum _ | VNaN => Some Number_prototype
  | VStr _ => Some String_prototype
  | VObj l => Some l
  end.

Definition lookup_member (h : heap_t) (v : value) (name : string) : value :=
  match holder v with
  | Some l =>
      match h !! l with
      | Some o => default VUndefined (o !! name)
      | None => VUndefined
      end
  | None => VUndefined
  end.

(** [name in v], for a [v] that can have members. *)
Definition has_member (h : heap_t) (v : value) (name : string) : bool :=
  match holder v with
  | Some l =>
      match h !! l with
      | Some o => bool_decide (is_Some (o !! name))
      | None => false
      end
  | None => false
  end.

(** ** Effects *)

Inductive exn : Type :=
| TypeError
| HostError (v : value).

(** The log of an execution, in order. The source keeps no log; the
    embedding records in it the points the properties speak of:
    [Reduce s], the reducer is called with [s] (line 8 of [index.js]);
    [Reduced v], it has returned [v]; [Call f this args], a function value
    is called (lines 11, 15 and 31); [Assign v], [currentState = v]
    (line 13). *)
Inductive event : Type :=
| Reduce (s : value)
| Reduced (v : value)
| Call (f this : value) (args : list value)
| Assign (v : value).

#[global] Instance event_eq_dec : EqDecision event.
Proof. solve_decision. Defined.

Record world : Type := World {
  currentState : value;
  heap : heap_t
}.

Definition set_currentState (v : value) (w : world) : world :=
  {| currentState := v; heap := heap w |}.

Definition set_heap (h : heap_t) (w : world) : world :=
  {| currentState := currentState w; heap := h |}.

(** A computation ends normally, by an exception, or does not end within
    the fuel given to host code. *)
Inductive outcome (A : Type) : Type :=
| Normal (a : A) (w : world) (t : list event)
| Thrown (e : exn) (w : world) (t : list event)
| OutOfFuel.

Arguments Normal {A} a w t.
Arguments Thrown {A} e w t.
Arguments OutOfFuel {A}.

Definition M (A : Type) : Type := world -> outcome A.

(** [emitting t o]: [o], after the events [t] have happened. *)
Definition emitting {A} (t : list event) (o : outcome A) : outcome A :=
  match o with
  | Normal a w t' => Normal a w (t ++ t')
  | Thrown e w t' => Thrown e w (t ++ t')
  | OutOfFuel => OutOfFuel
  end.

Definition ret {A} (a : A) : M A := fun w => Normal a w [].

Definition throw {A} (e : exn) : M A := fun w => Thrown e w [].

Definition bind {A B} (m : M A) (k : A -> M B) : M B :=
  fun w =>
    match m w with
    | Normal a w1 t1 => emitting t1 (k a w1)
    | Thrown e w1 t1 => Thrown e w1 t1
    | OutOfFuel => OutOfFuel
    end.

Notation "'let*' x ':=' c 'in' k" := (bind c (fun x => k))
  (at level 10, x name, c at level 100, k at level 200).

Definition emit (e : event) : M unit := fun w => Normal tt w [e].

Definition read_currentState : M value := fun w => Normal (currentState w) w [].

Definition write_currentState (v : value) : M unit :=
  fun w => Normal tt (set_currentState v w) [].

(** [v[name]]: a TypeError on [null] and [undefined]. *)
Definition get_member (v : value) (name : string) : M value :=
  match holder v with
  | Some _ => fun w => Normal (lookup_member (heap w) v name) w []
  | None => throw TypeError
  end.

(** [o[name] = v] on an object. *)
Definition set_member (l : loc) (name : string) (v : value) : M unit :=
  fun w =>
    Normal tt (set_heap (<[l := <[name := v]> (default ∅ (heap w !! l))]> (heap w)) w) [].

(** What is left to look at after a computation. *)
Definition final_world {A} (o : outcome A) : option world :=
  match o with
  | Normal _ w _ | Thrown _ w _ => Some w
  | OutOfFuel => None
  end.

Definition events {A} (o : outcome A) : list event :=
  match o with
  | Normal _ _ t | Thrown _ _ t => t
  | OutOfFuel => []
  end.

(** Run [m] for its effects only. *)
Definition void {A} (m : M A) : M unit :=
  let* _ := m in ret tt.

(** ** The machine *)

Section Machine.

(** [f.apply(this, args)]: how the host runs a function value. Nothing
    is assumed of it here: it may throw, re-enter the machine, change
    objects, or not return. *)
Variable apply : value -> value -> list value -> M value.

Definition call (f this : value) (args : list value) : M value :=
  let* _ := emit (Call f this args) in
  apply f this args.

(** [s && s.name] *)
Definition and_member (s : value) (name : string) : M value :=
  if truthy s then get_member s name else ret s.

(** [if (currentState && currentState.name) { currentState.name() }] *)
Definition hook (name : string) : M unit :=
  let* c := read_currentState in
  let* guard := and_member c name in
  if truthy guard then
    let* this := read_currentState in
    let* f := get_member this name in
    let* _ := call f this [] in
    ret tt
  else ret tt.

(** Lines 9 to 17: what [handle] does with the reducer's answer. *)
Definition transition (nextState : value) : M unit :=
  let* c := read_currentState in
  if strict_neq nextState c then
    let* _ := hook "exit" in
    let* _ := emit (Assign nextState) in
    let* _ := write_currentState nextState in
    hook "entry"
  else ret tt.

Definition handle (reducer : value -> M value) : M unit :=
  let* s := read_currentState in
  let* _ := emit (Reduce s) in
  let* nextState := reducer s in
  let* _ := emit (Reduced nextState) in
  transition nextState.

(** The reducer that [invoke] builds:
    [state[eventName] ? state[eventName].apply(state, args) : state].
    The [apply] of the member is taken to be the one that every function
    has, which calls the member on [state] with [args]. *)
Definition dispatch (eventName : string) (args : list value) (state : value) : M value :=
  let* m := get_member state eventName in
  if truthy m then
    let* f := get_member state eventName in
    call f state args
  else ret state.

(** [invoke] as a method of the object that [createStateMachine]
    returns, so that [this.handle] is [handle]. *)
Definition invoke (eventName : string) (args : list value) : M unit :=
  handle (dispatch eventName args).

(** [var currentState = null], then the first [handle]. The machine
    returned is the pair of [handle] and [invoke] over this variable;
    [initialState = null] on line 24 clears a variable nobody reads
    again. *)
Definition createStateMachine (initialState : value) : M unit :=
  let* _ := write_currentState VNull in
  handle (fun _ => ret initialState).

End Machine.

(** ** Host code *)

(** Reducers, hooks and event handlers: they compute, throw, read and
    write members, and may call the two methods of the machine. *)
Inductive prog : Type :=
| Ret (v : value)
| Throw (v : value)
| GetMember (v : value) (name : string) (k : value -> prog)
| SetMember (l : loc) (name : string) (v : value) (k : prog)
| Handle (reducer : value -> prog) (k : prog)
| Invoke (eventName : string) (args : list value) (k : prog).

(** The code of the function objects: receiver and arguments to body. *)
Abbreviation code_t := (loc -> option (value -> list value -> prog)).

Definition apply_with (code : code_t) (run : prog -> M value)
    (f this : value) (args : list value) : M value :=
  match f with
  | VObj l =>
      match code l with
      | Some body => run (body this args)
      | None => throw TypeError
      end
  | _ => throw TypeError
  end.

(** One program, given [run] for the programs it starts. *)
Definition exec_body (code : code_t) (run : prog -> M value) (p : prog) : M value :=
  match p with
  | Ret v => ret v
  | Throw v => throw (HostError v)
  | GetMember v name k =>
      let* x := get_member v name in run (k x)
  | SetMember l name v k =>
      let* _ := set_member l name v in run k
  | Handle reducer k =>
      let* _ := handle (apply_with code run) (fun s => run (reducer s)) in
      run k
  | Invoke eventName args k =>
      let* _ := invoke (apply_with code run) eventName args in
      run k
  end.

(** Fuel bounds the depth of the run: a hook that re-enters the machine
    may start a transition that calls the hook again. *)
Fixpoint exec (code : code_t) (fuel : nat) (p : prog) {struct fuel} : M value :=
  match fuel with
  | O => fun _ => OutOfFuel
  | S n => exec_body code (exec code n) p
  end.

(** [f.apply(this, args)] with [fuel] to spend: a TypeError unless [f] is
    a function object (a value that is not a function but has a member
    [apply] of its own is not modelled). *)
Definition apply_fn (code : code_t) (fuel : nat) : value -> value -> list value -> M value :=
  apply_with code (exec code fuel).

(** The life of one machine: construction on [initialState], then the
    host program [driver], which owns the machine. *)
Definition run_machine (code : code_t) (fuel : nat) (initialState : value) (driver : prog)
    : M value :=
  let* _ := createStateMachine (apply_fn code fuel) initialState in
  exec code fuel driver.


(** ** Provenance of the current state: the observer *)

(** An observer who sees only the events can keep track of the machine:
    [audit cur answers t] replays [t] from a machine known to be in [cur],
    with [answers] the values reducers have returned so far. It fails when
    a reducer or a callee is shown a state other than the tracked one, or
    when a value is assigned that no reducer has returned. *)
Fixpoint audit (cur : value) (answers : list value) (t : list event)
    : option (value * list value) :=
  match t with
  | [] => Some (cur, answers)
  | Reduce s :: t' => if decide (s = cur) then audit cur answers t' else None
  | Reduced v :: t' => audit cur (v :: answers) t'
  | Call _ this _ :: t' => if decide (this = cur) then audit cur answers t' else None
  | Assign v :: t' => if decide (v ∈ answers) then audit v answers t' else None
  end.

(** The outcome [o] of a computation started in [w] passes the audit. *)
Definition audits {A} (w : world) (answers : list value) (o : outcome A) : Prop :=
  match o with
  | Normal _ w' t | Thrown _ w' t =>
      exists answers', audit (currentState w) answers t = Some (currentState w', answers')
  | OutOfFuel => True
  end.

(** [o1] is [o2], unless it ran out of fuel. *)
Definition settled {A} (o1 o2 : outcome A) : Prop := o1 = OutOfFuel \/ o1 = o2.

(** Host code that leaves the machine alone. *)
Inductive standalone : prog -> Prop :=
| standalone_Ret v : standalone (Ret v)
| standalone_Throw v : standalone (Throw v)
| standalone_GetMember v name k :
    (forall x, standalone (k x)) -> standalone (GetMember v name k)
| standalone_SetMember l name v k :
    standalone k -> standalone (SetMember l name v k).

(** ** The toggle machine of the specification's scenario *)

Module Toggle.

Definition On : loc := 10%positive.
Definition Off : loc := 11%positive.
Definition markOn : loc := 20%positive.
Definition markOff : loc := 21%positive.
Definition markOff2 : loc := 22%positive.
Definition toOff : loc := 23%positive.
Definition toOn : loc := 24%positive.

(** [On = {entry: markOn, exit: markOff, toggle: () => Off}],
    [Off = {entry: markOff2, toggle: () => On}]. *)
Definition objects : heap_t :=
  {[ On := {[ "entry" := VObj markOn; "exit" := VObj markOff; "toggle" := VObj toOff ]};
     Off := {[ "entry" := VObj markOff2; "toggle" := VObj toOn ]} ]}.

Definition code : code_t := fun l =>
  if decide (l = markOn) then Some (fun _ _ => Ret VUndefined)
  else if decide (l = markOff) then Some (fun _ _ => Ret VUndefined)
  else if decide (l = markOff2) then Some (fun _ _ => Ret VUndefined)
  else if decide (l = toOff) then Some (fun _ _ => Ret (VObj Off))
  else if decide (l = toOn) then Some (fun _ _ => Ret (VObj On))
  else None.

Definition start : world := {| currentState := VNull; heap := objects |}.

Definition ap := apply_fn code 5.

End Toggle.


(** ** Worlds used to run the theorems on *)

Module Demo.

Import Toggle.

(** The machine while it is in [On], and while it is in [Off]. *)
Definition inOn : world := {| currentState := VObj On; heap := objects |}.
Definition inOff : world := {| currentState := VObj Off; heap := objects |}.

(** Functions that fail: [boom] throws the string it is named after. *)
Definition boom : loc := 30%positive.
Definition Fragile : loc := 12%positive.
Definition Stuck : loc := 13%positive.
(** [Legacy = {enter: markOn}], a state written after the README. *)
Definition Legacy : loc := 14%positive.
(** [Twin] has the members of [Off], and is another object. *)
Definition Twin : loc := 15%positive.

Definition objects' : heap_t :=
  <[ Fragile := {[ "exit" := VObj boom; "go" := VObj toOff; "fail" := VObj boom ]} ]>
  (<[ Stuck := {[ "entry" := VObj boom ]} ]>
  (<[ Legacy := {[ "enter" := VObj markOn ]} ]>
  (<[ Twin := {[ "entry" := VObj markOff2; "toggle" := VObj toOn ]} ]> objects))).

Definition code' : code_t := fun l =>
  if decide (l = boom) then Some (fun _ _ => Throw (VStr "boom")) else code l.

Definition ap' := apply_fn code' 5.

Definition inFragile : world := {| currentState := VObj Fragile; heap := objects' |}.
Definition inOn' : world := {| currentState := VObj On; heap := objects' |}.
Definition inStuck : world := {| currentState := VObj Stuck; heap := objects' |}.
Definition inOff' : world := {| currentState := VObj Off; heap := objects' |}.
Definition inTwin : world := {| currentState := VObj Twin; heap := objects' |}.
Definition fresh : world := {| currentState := VNull; heap := objects' |}.

(** Start at [Off]; [toggle]; [toggle]; an event nobody handles. *)
Definition driver : prog :=
  Invoke "toggle" [] (Invoke "toggle" [] (Invoke "missing" [] (Ret VUndefined))).

End Demo.

(** ** Hooks that call back into the machine *)

Module Reentrant.

Definition A : loc := 40%positive.
Definition B : loc := 41%positive.
Definition C : loc := 42%positive.
Definition onwards : loc := 50%positive.
Definition onwards_then_fail : loc := 51%positive.
Definition Bad : loc := 43%positive.

(** [B.entry] sends the machine on to [C]; [Bad.entry] does the same and
    then throws. *)
Definition objects : heap_t :=
  {[ A := ∅;
     B := {[ "entry" := VObj onwards ]};
     C := ∅;
     Bad := {[ "entry" := VObj onwards_then_fail ]} ]}.

Definition code : code_t := fun l =>
  if decide (l = onwards) then
    Some (fun _ _ => Handle (fun _ => Ret (VObj C)) (Ret VUndefined))
  else if decide (l = onwards_then_fail) then
    Some (fun _ _ => Handle (fun _ => Ret (VObj C)) (Throw (VStr "late")))
  else None.

Definition inA : world := {| currentState := VObj A; heap := objects |}.
Definition inC : world := {| currentState := VObj C; heap := objects |}.

End Reentrant.

(** ** Function objects, and the objects a computation leaves *)

(** Whether [f] is a function object, which is what a call needs. *)
Definition callable (code : code_t) (f : value) : bool :=
  match f with
  | VObj l => match code l with Some _ => true | None => false end
  | _ => false
  end.

(** The outcome [o] of a computation started in [w] has the heap of [w]:
    no member of any object was added, removed or changed. *)
Definition keeps_heap {A} (w : world) (o : outcome A) : Prop :=
  match o with
  | Normal _ w' _ | Thrown _ w' _ => heap w' = heap w
  | OutOfFuel => True
  end.

(** ** The machine of the README *)

(** The README prints another [createStateMachine], with [getState] and
    [setState] in place of [handle] and [invoke]. Its variable [_state]
    is the [currentState] of the world here. *)
Module Readme.

Section Machine.

Variable apply : value -> value -> list value -> M value.

(** [if (_state.enter) _state.enter()]: [_state] itself is not tested. *)
Definition enter_hook : M unit :=
  let* s := read_currentState in
  let* guard := get_member s "enter" in
  if truthy guard then
    let* this := read_currentState in
    let* f := get_member this "enter" in
    let* _ := call apply f this [] in
    ret tt
  else ret tt.

Definition getState : M value := read_currentState.

Definition setState (nextState : value) : M unit :=
  let* c := read_currentState in
  if strict_neq nextState c then
    let* _ := hook apply "exit" in
    let* _ := emit (Assign nextState) in
    let* _ := write_currentState nextState in
    enter_hook
  else ret tt.

(** [let _state], which is [undefined], then [setState(initialState)]. *)
Definition createStateMachine (initialState : value) : M unit :=
  let* _ := write_currentState VUndefined in
  setState initialState.

End Machine.

End Readme.

(** ** The message buffer of the README, in its two versions *)

(** [createMessageBuffer.normal.js] keeps three variables;
    [createMessageBuffer.state.js] keeps one state in the README's
    machine. Messages and subscribers are values. *)
Module Buffer.

(** One call [subscriber(message)]. *)
Definition delivery : Type := (value * value)%type.

(** [new Error(message)], or what a call or a member access threw. *)
Inductive error : Type :=
| Error (message : string)
| Host (e : exn).

(** How a call of a method, or of a subscriber, ends: the buffer as it
    is then, and the calls of subscribers made so far. *)
Inductive outcome (S A : Type) : Type :=
| Returned (a : A) (st : S) (log : list delivery)
| Threw (e : error) (st : S) (log : list delivery).

Arguments Returned {S A} a st log.
Arguments Threw {S A} e st log.

(** What the host's functions do. [run subscriber message st log] is the
    call [subscriber(message)], made with the buffer in [st], [log] being
    the calls so far, this one included. The function is the host's: it
    may throw, and it may call [push], [connect], [disconnect] and
    [isConnected] of the very buffer that calls it; so its outcome has
    the buffer as the function left it and the calls it has caused.
    Nothing is assumed of [run] but that the call ends. *)
Definition subscribers (S : Type) : Type :=
  value -> value -> S -> list delivery -> outcome S unit.

(** Subscribers that do not call the buffer: a call leaves the buffer as
    it is, and whether it throws is told from the calls so far. *)
Definition quiet {S} (throws : list delivery -> value -> value -> option exn)
    : subscribers S :=
  fun subscriber message st log =>
    match throws log subscriber message with
    | None => Returned tt st log
    | Some e => Threw (Host e) st log
    end.

(** The outcome [o] has the buffer [st]. *)
Definition untouched {S A} (st : S) (o : outcome S A) : Prop :=
  match o with
  | Returned _ st' _ | Threw _ st' _ => st' = st
  end.

(** What the user of a buffer calls, and what comes back. *)
Inductive op : Type :=
| Push (message : value)
| Connect (subscriber : value)
| Disconnect
| IsConnected.

Inductive answer : Type :=
| Done
| Status (connected : bool)
| Failed (e : error).

Definition done {S} (o : outcome S unit) : answer * S * list delivery :=
  match o with
  | Returned _ st log => (Done, st, log)
  | Threw e st log => (Failed e, st, log)
  end.

Definition status {S} (o : outcome S bool) : answer * S * list delivery :=
  match o with
  | Returned b st log => (Status b, st, log)
  | Threw e st log => (Failed e, st, log)
  end.

(** The three variables of the normal version. *)
Record normal : Type := {
  _connected : bool;
  _subscriber : value;
  _queue : option (list value)
}.

(** The states of the other version: [disconnectedState()] with the
    array [queue] of its closure, [connectedState(subscriber)]. An array
    is only ever pushed on, and a state that has been left is never the
    current one again, so the state in [_state] with the contents of its
    array is all there is to know. *)
Inductive state : Type :=
| Disconnected (queue : list value)
| Connected (subscriber : value).

Section Calls.

Variable S : Type.
Variable run : subscribers S.

(** [subscriber(message)] *)
Definition call_subscriber (subscriber message : value) (st : S) (log : list delivery)
    : outcome S unit :=
  run subscriber message st (log ++ [(subscriber, message)]).

(** [queue.forEach((message) => subscriber(message))]: the elements
    that were in the array when [forEach] was called, one by one, the
    buffer being what the calls before have made of it. *)
Fixpoint forEach (subscriber : value) (queue : list value) (st : S) (log : list delivery)
    : outcome S unit :=
  match queue with
  | [] => Returned tt st log
  | message :: rest =>
      match call_subscriber subscriber message st log with
      | Returned _ st' log' => forEach subscriber rest st' log'
      | Threw e st' log' => Threw e st' log'
      end
  end.

End Calls.

Arguments call_subscriber {S} run subscriber message st log.
Arguments forEach {S} run subscriber queue st log.

(** *** [createMessageBuffer.normal.js] *)

Definition createMessageBuffer_normal : normal :=
  {| _connected := false; _subscriber := VNull; _queue := Some [] |}.

Section Normal.

Variable run : subscribers normal.

Definition normal_push (message : value) (b : normal) (log : list delivery)
    : outcome normal unit :=
  if _connected b then call_subscriber run (_subscriber b) message b log
  else
    match _queue b with
    | Some queue =>
        Returned tt {| _connected := _connected b; _subscriber := _subscriber b;
                       _queue := Some (queue ++ [message]) |} log
    | None => Threw (Host TypeError) b log
    end.

Definition normal_connect (subscriber : value) (b : normal) (log : list delivery)
    : outcome normal unit :=
  if _connected b then Threw (Error "Already connected!") b log
  else
    let b1 := {| _connected := true; _subscriber := subscriber; _queue := _queue b |} in
    match _queue b1 with
    | Some queue =>
        match forEach run subscriber queue b1 log with
        | Returned _ b2 log' =>
            Returned tt {| _connected := _connected b2; _subscriber := _subscriber b2;
                           _queue := None |} log'
        | Threw e b2 log' => Threw e b2 log'
        end
    | None => Threw (Host TypeError) b1 log
    end.

Definition normal_disconnect (b : normal) (log : list delivery) : outcome normal unit :=
  if negb (_connected b) then Threw (Error "Not connected!") b log
  else Returned tt {| _connected := false; _subscriber := VNull; _queue := Some [] |} log.

Definition normal_isConnected (b : normal) (log : list delivery) : outcome normal bool :=
  Returned (_connected b) b log.

Definition normal_step (o : op) (b : normal) (log : list delivery)
    : answer * normal * list delivery :=
  match o with
  | Push message => done (normal_push message b log)
  | Connect subscriber => done (normal_connect subscriber b log)
  | Disconnect => done (normal_disconnect b log)
  | IsConnected => status (normal_isConnected b log)
  end.

(** A user who catches what is thrown and goes on. *)
Fixpoint normal_run (ops : list op) (b : normal) (log : list delivery)
    : list answer * normal * list delivery :=
  match ops with
  | [] => ([], b, log)
  | o :: rest =>
      let '(a, b', log') := normal_step o b log in
      let '(answers, b'', log'') := normal_run rest b' log' in
      (a :: answers, b'', log'')
  end.

End Normal.

(** *** [createMessageBuffer.state.js] *)

Definition disconnectedState : state := Disconnected [].

Definition connectedState (subscriber : value) : state := Connected subscriber.

(** The README's machine over these states. Neither state has an [exit]
    or an [enter] member, and every [setState] is given an object made
    for the call, which no earlier state is identical to: [setState]
    assigns. *)
Definition getState (_state : state) : state := _state.

Definition setState (nextState : state) (_state : state) : state := nextState.

(** [createStateMachine(disconnectedState())] *)
Definition createMessageBuffer_state : state := setState disconnectedState disconnectedState.

Section State.

Variable run : subscribers state.

(** [getState().push(message)] *)
Definition state_push (message : value) (st : state) (log : list delivery)
    : outcome state unit :=
  match getState st with
  | Disconnected queue => Returned tt (Disconnected (queue ++ [message])) log
  | Connected subscriber => call_subscriber run subscriber message st log
  end.

(** [getState().connect(subscriber)]: the state that was current when
    the call began flushes its queue, then [setState]. *)
Definition state_connect (subscriber : value) (st : state) (log : list delivery)
    : outcome state unit :=
  match getState st with
  | Disconnected queue =>
      match forEach run subscriber queue st log with
      | Returned _ st' log' => Returned tt (setState (connectedState subscriber) st') log'
      | Threw e st' log' => Threw e st' log'
      end
  | Connected _ => Threw (Error "Already connected!") st log
  end.

(** [getState().disconnect()] *)
Definition state_disconnect (st : state) (log : list delivery) : outcome state unit :=
  match getState st with
  | Disconnected _ => Threw (Error "Not connected!") st log
  | Connected _ => Returned tt (setState disconnectedState st) log
  end.

(** [getState().connected] *)
Definition state_isConnected (st : state) (log : list delivery) : outcome state bool :=
  match getState st with
  | Disconnected _ => Returned false st log
  | Connected _ => Returned true st log
  end.

Definition state_step (o : op) (st : state) (log : list delivery)
    : answer * state * list delivery :=
  match o with
  | Push message => done (state_push message st log)
  | Connect subscriber => done (state_connect subscriber st log)
  | Disconnect => done (state_disconnect st log)
  | IsConnected => status (state_isConnected st log)
  end.

Fixpoint state_run (ops : list op) (st : state) (log : list delivery)
    : list answer * state * list delivery :=
  match ops with
  | [] => ([], st, log)
  | o :: rest =>
      let '(a, st', log') := state_step o st log in
      let '(answers, st'', log'') := state_run rest st' log' in
      (a :: answers, st'', log'')
  end.

End State.

(** What the user sees of a run: the answers and the calls made. *)
Definition seen {S} (r : list answer * S * list delivery) : list answer * list delivery :=
  (fst (fst r), snd r).

(** The variables of the normal version say what the state [st] says. *)
Definition same (b : normal) (st : state) : Prop :=
  match st with
  | Disconnected queue => _connected b = false /\ _queue b = Some queue
  | Connected subscriber => _connected b = true /\ _subscriber b = subscriber
  end.

(** While disconnected there is a queue to push on. *)
Definition queueing (b : normal) : Prop :=
  _connected b = false -> exists queue, _queue b = Some queue.

End Buffer.

(** ** States with members of every kind *)

Module Edge.

Definition Flagged : loc := 60%positive.
Definition Unenterable : loc := 61%positive.
Definition Quiet : loc := 62%positive.
Definition Clingy : loc := 63%positive.
Definition Both : loc := 64%positive.
Definition stay : loc := 70%positive.
Definition leave : loc := 71%positive.
Definition fail : loc := 72%positive.
Definition again : loc := 73%positive.
Definition mark : loc := 74%positive.

(** [Flagged = {connected: true, idle: false, exit: 1}],
    [Unenterable = {entry: "soon"}],
    [Quiet = {stay () { return this }, leave () { }, fail () { throw "no" }}],
    [Clingy = {exit () { machine.handle(() => Quiet) }}],
    [Both = {enter: mark, entry: mark}]. *)
Definition objects : heap_t :=
  {[ Flagged := {[ "connected" := VBool true; "idle" := VBool false; "exit" := VNum 1 ]};
     Unenterable := {[ "entry" := VStr "soon" ]};
     Quiet := {[ "stay" := VObj stay; "leave" := VObj leave; "fail" := VObj fail ]};
     Clingy := {[ "exit" := VObj again ]};
     Both := {[ "enter" := VObj mark; "entry" := VObj mark ]} ]}.

Definition code : code_t := fun l =>
  if decide (l = stay) then Some (fun this _ => Ret this)
  else if decide (l = leave) then Some (fun _ _ => Ret VUndefined)
  else if decide (l = fail) then Some (fun _ _ => Throw (VStr "no"))
  else if decide (l = again) then
    Some (fun _ _ => Handle (fun _ => Ret (VObj Quiet)) (Ret VUndefined))
  else if decide (l = mark) then Some (fun _ _ => Ret VUndefined)
  else None.

Definition ap := apply_fn code 5.

Definition at_ (s : value) : world := {| currentState := s; heap := objects |}.

End Edge.

(** ** Subscribers of every kind *)

Module Callers.

(** A subscriber that throws at the message [13]. *)
Definition superstitious : list Buffer.delivery -> value -> value -> option exn :=
  fun _ _ message =>
    if decide (message = VNum 13) then Some (HostError (VStr "unlucky")) else None.

(** Subscribers that take everything. *)
Definition easygoing : list Buffer.delivery -> value -> value -> option exn :=
  fun _ _ _ => None.

(** [message => buffer.disconnect()], subscribed to either version. *)
Definition hangs_up_normal : Buffer.subscribers Buffer.normal :=
  fun _ _ b log => Buffer.normal_disconnect b log.

Definition hangs_up_state : Buffer.subscribers Buffer.state :=
  fun _ _ st log => Buffer.state_disconnect st log.

(** [message => { if (message === 1) buffer.push(99) }], subscribed to
    either version. *)
Definition echoes_normal : Buffer.subscribers Buffer.normal :=
  fun _ message b log =>
    if decide (message = VNum 1)
    then Buffer.normal_push (fun _ _ b' log' => Buffer.Returned tt b' log') (VNum 99) b log
    else Buffer.Returned tt b log.

Definition echoes_state : Buffer.subscribers Buffer.state :=
  fun _ message st log =>
    if decide (message = VNum 1)
    then Buffer.state_push (fun _ _ st' log' => Buffer.Returned tt st' log') (VNum 99) st log
    else Buffer.Returned tt st log.

End Callers.

(** ** Values and the monad: basic facts *)

Lemma strict_eq_true a b : strict_eq a b = true -> a = b.
Proof.
  destruct a, b; simpl; try discriminate; try reflexivity;
    intros H; apply bool_decide_eq_true in H; congruence.
Qed.

Lemma strict_eq_refl a : a <> VNaN -> strict_eq a a = true.
Proof.
  destruct a; simpl; intros H; try reflexivity; try congruence;
    apply bool_decide_eq_true; reflexivity.
Qed.

Lemma truthy_holder v : truthy v = true -> exists l, holder v = Some l.
Proof. destruct v; simpl; try discriminate; eauto. Qed.

Lemma get_member_ok v name w l :
  holder v = Some l -> get_member v name w = Normal (lookup_member (heap w) v name) w [].
Proof. intros H. unfold get_member. rewrite H. reflexivity. Qed.

Lemma lacking_member h v name : has_member h v name = false -> lookup_member h v name = VUndefined.
Proof.
  unfold has_member, lookup_member.
  destruct (holder v) as [l|]; [|reflexivity].
  destruct (h !! l) as [o|]; [|reflexivity].
  destruct (o !! name) eqn:E; [|reflexivity].
  intros H. apply bool_decide_eq_false in H. exfalso. apply H. eauto.
Qed.

Lemma emitting_nil {A} (o : outcome A) : emitting [] o = o.
Proof. destruct o; reflexivity. Qed.

Lemma emitting_app {A} t1 t2 (o : outcome A) :
  emitting t1 (emitting t2 o) = emitting (t1 ++ t2) o.
Proof. destruct o; simpl; rewrite ?app_assoc; reflexivity. Qed.

Lemma void_Normal {A} (m : M A) w a w1 t1 :
  m w = Normal a w1 t1 -> void m w = Normal tt w1 t1.
Proof. intros H. unfold void, bind. rewrite H. simpl. rewrite app_nil_r. reflexivity. Qed.

Lemma void_Thrown {A} (m : M A) w e w1 t1 :
  m w = Thrown e w1 t1 -> void m w = Thrown e w1 t1.
Proof. intros H. unfold void, bind. rewrite H. reflexivity. Qed.

Lemma set_currentState_same w : set_currentState (currentState w) w = w.
Proof. destruct w; reflexivity. Qed.

(** Two traces that differ only in how [++] is nested. *)
Ltac trace_eq :=
  repeat (simpl; rewrite <- ?app_assoc; simpl; rewrite ?app_nil_r);
  try reflexivity.

(** ** One lifecycle hook *)

Section HookFacts.

Variable apply : value -> value -> list value -> M value.

(** A falsy state is never asked for its members. *)
Lemma hook_falsy_state name w :
  truthy (currentState w) = false -> hook apply name w = Normal tt w [].
Proof.
  intros H. unfold hook, bind, read_currentState, and_member. simpl.
  rewrite H. simpl. rewrite H. reflexivity.
Qed.

(** A state without the (truthy) member: nothing is called. *)
Lemma hook_no_member name w :
  truthy (lookup_member (heap w) (currentState w) name) = false ->
  hook apply name w = Normal tt w [].
Proof.
  intros H. unfold hook, bind, read_currentState, and_member. simpl.
  destruct (truthy (currentState w)) eqn:T.
  - destruct (truthy_holder _ T) as [l Hl].
    rewrite (get_member_ok _ _ _ _ Hl). simpl. rewrite H. reflexivity.
  - simpl. rewrite T. reflexivity.
Qed.

(** A truthy state with a truthy member: the member is called on the
    state, with no arguments, in the world as it stands. *)
Lemma hook_fires name w f :
  truthy (currentState w) = true ->
  lookup_member (heap w) (currentState w) name = f ->
  truthy f = true ->
  hook apply name w = emitting [Call f (currentState w) []] (void (apply f (currentState w) []) w).
Proof.
  intros T Hf Tf. unfold hook, bind, read_currentState, and_member. simpl.
  rewrite T. destruct (truthy_holder _ T) as [l Hl].
  rewrite (get_member_ok _ _ _ _ Hl). simpl. rewrite Hf, Tf. simpl.
  rewrite (get_member_ok _ _ _ _ Hl). simpl. rewrite Hf.
  unfold call, void, bind, emit. simpl.
  destruct (apply f (currentState w) [] w); simpl; rewrite ?app_nil_r; reflexivity.
Qed.

(** [handle] is the reducer, then [transition]. *)
Lemma handle_Normal reducer w next w1 t1 :
  reducer (currentState w) w = Normal next w1 t1 ->
  handle apply reducer w =
    emitting ([Reduce (currentState w)] ++ t1 ++ [Reduced next]) (transition apply next w1).
Proof.
  intros H. unfold handle, bind, read_currentState, emit. simpl. rewrite H. simpl.
  destruct (transition apply next w1); simpl; rewrite <- ?app_assoc; reflexivity.
Qed.

Lemma handle_Thrown reducer w e w1 t1 :
  reducer (currentState w) w = Thrown e w1 t1 ->
  handle apply reducer w = Thrown e w1 ([Reduce (currentState w)] ++ t1).
Proof.
  intros H. unfold handle, bind, read_currentState, emit. simpl. rewrite H. reflexivity.
Qed.

Lemma transition_same next w :
  strict_eq next (currentState w) = true -> transition apply next w = Normal tt w [].
Proof.
  intros H. unfold transition, bind, read_currentState, strict_neq. simpl. rewrite H. reflexivity.
Qed.

(** A transition that fires: exit hook, assignment, entry hook. *)
Lemma transition_fires next w :
  strict_neq next (currentState w) = true ->
  transition apply next w =
    match hook apply "exit" w with
    | Normal _ w2 t2 =>
        emitting (t2 ++ [Assign next]) (hook apply "entry" (set_currentState next w2))
    | Thrown e w2 t2 => Thrown e w2 t2
    | OutOfFuel => OutOfFuel
    end.
Proof.
  intros H. unfold transition at 1. unfold bind at 1. unfold read_currentState at 1.
  rewrite H. simpl. unfold bind at 1.
  destruct (hook apply "exit" w) as [[] w2 t2|e w2 t2|]; simpl; try reflexivity.
  unfold bind, emit, write_currentState. simpl.
  rewrite !emitting_app, app_nil_r. reflexivity.
Qed.

End HookFacts.

(** ** Properties of [handle] *)

Section HandleClaims.

Variable apply : value -> value -> list value -> M value.

(** C1: a transition from a state with an [exit] hook to a different state
    with an [entry] hook calls [exit] on the old state while the machine
    is still in the old state, then assigns, then calls [entry] on the new
    state while the machine is in the new state; the events come in
    exactly that order. *)
Theorem handle_exit_assign_entry reducer w next w1 t1 old hx rx w2 t2 he :
  reducer (currentState w) w = Normal next w1 t1 ->
  currentState w1 = old ->
  strict_neq next old = true ->
  truthy old = true ->
  lookup_member (heap w1) old "exit" = hx ->
  truthy hx = true ->
  apply hx old [] w1 = Normal rx w2 t2 ->
  truthy next = true ->
  lookup_member (heap w2) next "entry" = he ->
  truthy he = true ->
  handle apply reducer w =
    emitting ([Reduce (currentState w)] ++ t1 ++ [Reduced next]
              ++ [Call hx old []] ++ t2 ++ [Assign next] ++ [Call he next []])
      (void (apply he next []) (set_currentState next w2))
  /\ currentState w1 <> next
  /\ currentState (set_currentState next w2) = next.
Proof.
  intros Hr Hold Hne Told Hx Thx Hexit Tnext He The. subst old.
  split; [|split; [|reflexivity]].
  - rewrite (handle_Normal _ _ _ _ _ _ Hr).
    rewrite (transition_fires _ _ _ Hne).
    rewrite (hook_fires _ _ _ _ Told Hx Thx).
    rewrite (void_Normal _ _ _ _ _ Hexit). simpl.
    rewrite (hook_fires _ "entry" (set_currentState next w2) he Tnext He The).
    rewrite !emitting_app. f_equal. trace_eq.
  - intros E. rewrite E in Hne. unfold strict_neq in Hne.
    rewrite strict_eq_refl in Hne; [discriminate|].
    intros ->. discriminate.
Qed.

(** C2: nothing is caught and nothing is rolled back. A reducer that
    throws ends [handle] with the world the reducer left; an [exit] hook
    that throws ends it before the assignment; an [entry] hook that throws
    ends it after the assignment. The current state is then the old one in
    the first two cases and the new one in the third, provided the failing
    callback did not itself drive the machine somewhere else. *)
Theorem handle_failure_points reducer w :
  (forall e w1 t1,
      reducer (currentState w) w = Thrown e w1 t1 ->
      handle apply reducer w = Thrown e w1 ([Reduce (currentState w)] ++ t1)
      /\ (currentState w1 = currentState w ->
          currentState <$> final_world (handle apply reducer w) = Some (currentState w)))
  /\ (forall next w1 t1 old hx e w2 t2,
      reducer (currentState w) w = Normal next w1 t1 ->
      currentState w1 = old ->
      strict_neq next old = true ->
      truthy old = true ->
      lookup_member (heap w1) old "exit" = hx ->
      truthy hx = true ->
      apply hx old [] w1 = Thrown e w2 t2 ->
      handle apply reducer w =
        Thrown e w2 ([Reduce (currentState w)] ++ t1 ++ [Reduced next] ++ [Call hx old []] ++ t2)
      /\ (currentState w2 = old ->
          currentState <$> final_world (handle apply reducer w) = Some old))
  /\ (forall next w1 t1 w2 t2 he e w3 t3,
      reducer (currentState w) w = Normal next w1 t1 ->
      strict_neq next (currentState w1) = true ->
      hook apply "exit" w1 = Normal tt w2 t2 ->
      truthy next = true ->
      lookup_member (heap w2) next "entry" = he ->
      truthy he = true ->
      apply he next [] (set_currentState next w2) = Thrown e w3 t3 ->
      handle apply reducer w =
        Thrown e w3 ([Reduce (currentState w)] ++ t1 ++ [Reduced next] ++ t2
                     ++ [Assign next] ++ [Call he next []] ++ t3)
      /\ (currentState w3 = next ->
          currentState <$> final_world (handle apply reducer w) = Some next)).
Proof.
  split; [|split].
  - intros e w1 t1 Hr. rewrite (handle_Thrown _ _ _ _ _ _ Hr).
    split; [reflexivity|]. simpl. congruence.
  - intros next w1 t1 old hx e w2 t2 Hr Hold Hne Told Hx Thx Hexit. subst old.
    rewrite (handle_Normal _ _ _ _ _ _ Hr).
    rewrite (transition_fires _ _ _ Hne).
    rewrite (hook_fires _ _ _ _ Told Hx Thx).
    rewrite (void_Thrown _ _ _ _ _ Hexit). simpl.
    split; [|congruence]. f_equal. trace_eq.
  - intros next w1 t1 w2 t2 he e w3 t3 Hr Hne Hexit Tnext He The Hentry.
    rewrite (handle_Normal _ _ _ _ _ _ Hr).
    rewrite (transition_fires _ _ _ Hne). rewrite Hexit.
    rewrite (hook_fires _ "entry" (set_currentState next w2) he Tnext He The).
    simpl. rewrite (void_Thrown _ _ _ _ _ Hentry). simpl.
    split; [|congruence]. f_equal. trace_eq.
Qed.

(** C3: when the reducer answers with the state the machine is in
    (compared by [===]), [handle] adds nothing to what the reducer did:
    no hook is called, nothing is assigned, the world is the reducer's. *)
Theorem handle_same_state_noop reducer w next w1 t1 :
  reducer (currentState w) w = Normal next w1 t1 ->
  strict_eq next (currentState w1) = true ->
  handle apply reducer w = Normal tt w1 ([Reduce (currentState w)] ++ t1 ++ [Reduced next])
  /\ currentState w1 = next.
Proof.
  intros Hr Heq. rewrite (handle_Normal _ _ _ _ _ _ Hr).
  rewrite (transition_same _ _ _ Heq). simpl. rewrite app_nil_r.
  split; [reflexivity|]. symmetry. apply strict_eq_true. exact Heq.
Qed.

(** C10: a falsy next state that differs from the current one is
    committed. If the old state has no [exit] hook to run, the assignment
    is all that happens; if it has one and the hook returns, the hook runs
    first. In both cases [handle] ends normally right after the
    assignment: no member of the falsy state is looked up and no [entry]
    is called. *)
Theorem handle_falsy_next reducer w next w1 t1 :
  reducer (currentState w) w = Normal next w1 t1 ->
  truthy next = false ->
  strict_neq next (currentState w1) = true ->
  (truthy (currentState w1) = false
   \/ truthy (lookup_member (heap w1) (currentState w1) "exit") = false ->
   handle apply reducer w =
     Normal tt (set_currentState next w1)
       ([Reduce (currentState w)] ++ t1 ++ [Reduced next] ++ [Assign next]))
  /\ (forall hx rx w2 t2,
      truthy (currentState w1) = true ->
      lookup_member (heap w1) (currentState w1) "exit" = hx ->
      truthy hx = true ->
      apply hx (currentState w1) [] w1 = Normal rx w2 t2 ->
      handle apply reducer w =
        Normal tt (set_currentState next w2)
          ([Reduce (currentState w)] ++ t1 ++ [Reduced next]
           ++ [Call hx (currentState w1) []] ++ t2 ++ [Assign next])).
Proof.
  intros Hr Fnext Hne. split.
  - intros Hskip. rewrite (handle_Normal _ _ _ _ _ _ Hr).
    rewrite (transition_fires _ _ _ Hne).
    assert (Hx : hook apply "exit" w1 = Normal tt w1 []).
    { destruct Hskip; [apply hook_falsy_state|apply hook_no_member]; assumption. }
    rewrite Hx. rewrite (hook_falsy_state _ "entry" (set_currentState next w1) Fnext).
    simpl. f_equal. trace_eq.
  - intros hx rx w2 t2 Told Hx Thx Hexit.
    rewrite (handle_Normal _ _ _ _ _ _ Hr).
    rewrite (transition_fires _ _ _ Hne).
    rewrite (hook_fires _ _ _ _ Told Hx Thx).
    rewrite (void_Normal _ _ _ _ _ Hexit). simpl.
    rewrite (hook_falsy_state _ "entry" (set_currentState next w2) Fnext).
    simpl. f_equal. trace_eq.
Qed.

End HandleClaims.

(** ** Properties of [invoke] and [createStateMachine] *)

Lemma truthy_member_holder h s name :
  truthy (lookup_member h s name) = true -> exists l, holder s = Some l.
Proof.
  unfold lookup_member. destruct (holder s) as [l|]; [eauto|]. discriminate.
Qed.

Section InvokeClaims.

Variable apply : value -> value -> list value -> M value.

(** What the reducer of [invoke] does when the member is there. *)
Lemma dispatch_hit eventName args s w m :
  lookup_member (heap w) s eventName = m ->
  truthy m = true ->
  dispatch apply eventName args s w = emitting [Call m s args] (apply m s args w).
Proof.
  intros Hm Tm. unfold dispatch, bind.
  assert (Hh : exists l, holder s = Some l).
  { apply (truthy_member_holder (heap w) s eventName). rewrite Hm. exact Tm. }
  destruct Hh as [l Hl].
  rewrite (get_member_ok _ _ _ _ Hl). simpl. rewrite Hm, Tm.
  rewrite (get_member_ok _ _ _ _ Hl). simpl. rewrite Hm.
  unfold call, bind, emit. simpl. rewrite !emitting_nil. reflexivity.
Qed.

(** ... and when it is not. *)
Lemma dispatch_miss eventName args s w l :
  holder s = Some l ->
  truthy (lookup_member (heap w) s eventName) = false ->
  dispatch apply eventName args s w = Normal s w [].
Proof.
  intros Hl Fm. unfold dispatch, bind.
  rewrite (get_member_ok _ _ _ _ Hl). simpl. rewrite Fm. reflexivity.
Qed.


(** C5, amended: for a current state other than [null] and [undefined]
    that has no member under [eventName], [invoke] returns normally,
    leaves the world as it was and calls nothing. (The state [NaN] is
    re-assigned to itself, since [NaN !== NaN].) *)
Theorem invoke_missing_member_noop eventName args w :
  currentState w <> VNull ->
  currentState w <> VUndefined ->
  has_member (heap w) (currentState w) eventName = false ->
  invoke apply eventName args w =
    Normal tt w ([Reduce (currentState w); Reduced (currentState w)]
                 ++ if strict_eq (currentState w) (currentState w) then []
                    else [Assign (currentState w)]).
Proof.
  intros Hnull Hundef Hlack. unfold invoke.
  destruct (holder (currentState w)) as [l|] eqn:Hl;
    [|destruct (currentState w); try discriminate; congruence].
  assert (Hd : dispatch apply eventName args (currentState w) w = Normal (currentState w) w []).
  { apply (dispatch_miss _ _ _ _ _ Hl). rewrite (lacking_member _ _ _ Hlack). reflexivity. }
  rewrite (handle_Normal _ _ _ _ _ _ Hd).
  destruct (strict_eq (currentState w) (currentState w)) eqn:E.
  - rewrite (transition_same _ _ _ E). reflexivity.
  - assert (Hnan : currentState w = VNaN).
    { destruct (decide (currentState w = VNaN)) as [|Hn]; [assumption|].
      rewrite (strict_eq_refl _ Hn) in E. discriminate. }
    assert (Hf : truthy (currentState w) = false) by (rewrite Hnan; reflexivity).
    assert (Hne : strict_neq (currentState w) (currentState w) = true)
      by (unfold strict_neq; rewrite E; reflexivity).
    rewrite (transition_fires _ _ _ Hne).
    rewrite (hook_falsy_state _ _ _ Hf).
    rewrite (hook_falsy_state _ "entry" (set_currentState (currentState w) w) Hf).
    simpl. rewrite set_currentState_same. reflexivity.
Qed.

(** C9: on a machine whose state is [null] or [undefined] the member
    lookup of [invoke] throws a TypeError; nothing was called or assigned,
    and the world, the current state with it, is as before. *)
Theorem invoke_on_null_state_throws eventName args w :
  currentState w = VNull \/ currentState w = VUndefined ->
  invoke apply eventName args w = Thrown TypeError w [Reduce (currentState w)].
Proof.
  intros H. unfold invoke.
  assert (Hd : dispatch apply eventName args (currentState w) w = Thrown TypeError w []).
  { unfold dispatch, bind, get_member. destruct H as [-> | ->]; reflexivity. }
  rewrite (handle_Thrown _ _ _ _ _ _ Hd). reflexivity.
Qed.

(** C6, amended: constructing a machine on a truthy initial state whose
    [entry] member is a function that returns calls that function once,
    on the initial state, after the assignment; construction itself calls
    nothing else, in particular no [exit]. The member is looked up under
    the name [entry] only. *)
Theorem createStateMachine_calls_entry_once initialState w he r w3 t3 :
  truthy initialState = true ->
  lookup_member (heap w) initialState "entry" = he ->
  truthy he = true ->
  apply he initialState [] (set_currentState initialState w) = Normal r w3 t3 ->
  createStateMachine apply initialState w =
    Normal tt w3 ([Reduce VNull; Reduced initialState; Assign initialState;
                   Call he initialState []] ++ t3).
Proof.
  intros Ti He The Hentry. unfold createStateMachine, bind, write_currentState. simpl.
  set (w0 := set_currentState VNull w).
  assert (Hr : (fun _ : value => ret initialState) (currentState w0) w0 = Normal initialState w0 [])
    by reflexivity.
  rewrite (handle_Normal apply (fun _ => ret initialState) w0 initialState w0 [] Hr).
  assert (Hne : strict_neq initialState (currentState w0) = true).
  { destruct initialState; try discriminate; reflexivity. }
  rewrite (transition_fires _ _ _ Hne).
  rewrite (hook_falsy_state apply "exit" w0 eq_refl). simpl.
  rewrite (hook_fires apply "entry" (set_currentState initialState w0) he Ti He The).
  simpl. change (set_currentState initialState w0) with (set_currentState initialState w).
  rewrite (void_Normal _ _ _ _ _ Hentry). reflexivity.
Qed.

(** C7, amended: construction sets the variable to [null] and makes one
    call of [handle] whose reducer answers [initialState]. The guard
    [nextState !== currentState] of that call holds for every
    [initialState] other than [null], [undefined] included, and then the
    call assigns [initialState] and runs the [entry] hook as any
    transition does (there is no [exit] to run on [null]); for [null] the
    guard does not hold, and the call changes nothing. Either way a
    machine built on [null] or [undefined] ends in that state, without any
    call. *)
Theorem createStateMachine_first_transition initialState w :
  createStateMachine apply initialState w =
    handle apply (fun _ => ret initialState) (set_currentState VNull w)
  /\ (strict_neq initialState VNull = true <-> initialState <> VNull)
  /\ (initialState <> VNull ->
      createStateMachine apply initialState w =
        emitting [Reduce VNull; Reduced initialState; Assign initialState]
          (hook apply "entry" (set_currentState initialState w)))
  /\ createStateMachine apply VNull w =
       Normal tt (set_currentState VNull w) [Reduce VNull; Reduced VNull]
  /\ createStateMachine apply VUndefined w =
       Normal tt (set_currentState VUndefined w)
         [Reduce VNull; Reduced VUndefined; Assign VUndefined].
Proof.
  assert (Hguard : strict_neq initialState VNull = true <-> initialState <> VNull).
  { unfold strict_neq. destruct initialState; simpl; split; intros H;
      try reflexivity; try discriminate; congruence. }
  assert (Hcall : createStateMachine apply initialState w =
                  handle apply (fun _ => ret initialState) (set_currentState VNull w)).
  { unfold createStateMachine, bind, write_currentState. simpl. apply emitting_nil. }
  split; [exact Hcall|split; [exact Hguard|split; [|split; reflexivity]]].
  intros Hne. apply Hguard in Hne. rewrite Hcall.
  set (w0 := set_currentState VNull w).
  assert (Hr : (fun _ : value => ret initialState) (currentState w0) w0 = Normal initialState w0 [])
    by reflexivity.
  rewrite (handle_Normal apply (fun _ => ret initialState) w0 initialState w0 [] Hr).
  rewrite (transition_fires apply initialState w0 Hne).
  rewrite (hook_falsy_state apply "exit" w0 eq_refl). simpl.
  rewrite emitting_app. reflexivity.
Qed.

End InvokeClaims.

(** ** Provenance of the current state *)

Lemma audit_app cur answers t1 t2 :
  audit cur answers (t1 ++ t2) =
    match audit cur answers t1 with
    | Some (cur', answers') => audit cur' answers' t2
    | None => None
    end.
Proof.
  revert cur answers. induction t1 as [|e t1 IH]; intros cur answers; simpl; [reflexivity|].
  destruct e; try case_decide; auto.
Qed.

Lemma audit_prefix cur answers t1 t2 r :
  audit cur answers (t1 ++ t2) = Some r -> exists r1, audit cur answers t1 = Some r1.
Proof.
  rewrite audit_app. destruct (audit cur answers t1) as [r1|]; [eauto|discriminate].
Qed.

(** Answers are never forgotten, and they are the initial ones and those
    the events show. *)
Lemma audit_answers cur answers t cur' answers' :
  audit cur answers t = Some (cur', answers') ->
  forall v, v ∈ answers' <-> v ∈ answers \/ Reduced v ∈ t.
Proof.
  revert cur answers. induction t as [|e t IH]; intros cur answers H v; simpl in H.
  - inversion H; subst. rewrite elem_of_nil. tauto.
  - destruct e; try case_decide; try discriminate;
      apply IH with (v := v) in H; rewrite H, !elem_of_cons; try tauto;
      (split; intros [K|K]; try tauto; try (destruct K as [K|K]; try tauto; try discriminate)).
    + subst. tauto.
    + inversion K; subst. tauto.
Qed.

(** The tracked state is the initial one or an answer. *)
Lemma audit_state cur answers t cur' answers' :
  audit cur answers t = Some (cur', answers') -> cur' = cur \/ cur' ∈ answers'.
Proof.
  revert cur answers. induction t as [|e t IH]; intros cur answers H; simpl in H.
  - inversion H; subst. auto.
  - destruct e; try case_decide; try discriminate; try (apply IH in H; exact H).
    pose proof H as H'. apply IH in H. destruct H as [->|H]; [|auto].
    right. apply (audit_answers _ _ _ _ _ H'). auto.
Qed.

Lemma audits_emitting {A} w answers t w1 answers1 (o : outcome A) :
  audit (currentState w) answers t = Some (currentState w1, answers1) ->
  audits w1 answers1 o ->
  audits w answers (emitting t o).
Proof.
  intros Ht Ho. destruct o as [a w' t'|e w' t'|]; simpl in *; [| |exact I];
    destruct Ho as [answers' Ho]; exists answers'; rewrite audit_app, Ht; exact Ho.
Qed.

Lemma audits_bind {A B} (m : M A) (k : A -> M B) w answers :
  audits w answers (m w) ->
  (forall x w1 t1 answers1,
      m w = Normal x w1 t1 ->
      audit (currentState w) answers t1 = Some (currentState w1, answers1) ->
      audits w1 answers1 (k x w1)) ->
  audits w answers (bind m k w).
Proof.
  intros Hm Hk. unfold bind. destruct (m w) as [x w1 t1|e w1 t1|] eqn:E; simpl in *.
  - destruct Hm as [answers1 Hm]. eapply audits_emitting; [exact Hm|]. eapply Hk; eauto.
  - exact Hm.
  - exact I.
Qed.

Section Provenance.

Variable apply : value -> value -> list value -> M value.

(** Whatever the host runs passes the audit. *)
Hypothesis apply_audits : forall f this args w answers, audits w answers (apply f this args w).

Lemma hook_audits name w answers : audits w answers (hook apply name w).
Proof.
  destruct (truthy (currentState w)) eqn:T.
  - destruct (truthy (lookup_member (heap w) (currentState w) name)) eqn:Tf.
    + rewrite (hook_fires apply name w _ T eq_refl Tf).
      eapply audits_emitting with (w1 := w) (answers1 := answers).
      * simpl. rewrite decide_True by reflexivity. reflexivity.
      * unfold void. apply audits_bind; [apply apply_audits|].
        intros x w1 t1 answers1 _ _. simpl. eauto.
    + rewrite (hook_no_member apply name w Tf). simpl. eauto.
  - rewrite (hook_falsy_state apply name w T). simpl. eauto.
Qed.

Lemma transition_audits next w answers :
  next ∈ answers -> audits w answers (transition apply next w).
Proof.
  intros Hin. destruct (strict_neq next (currentState w)) eqn:E.
  - rewrite (transition_fires _ _ _ E).
    pose proof (hook_audits "exit" w answers) as Hx.
    destruct (hook apply "exit" w) as [[] w2 t2|e w2 t2|]; simpl in Hx; [|exact Hx|exact I].
    destruct Hx as [answers2 Hx].
    eapply audits_emitting with (w1 := set_currentState next w2) (answers1 := answers2).
    + rewrite audit_app, Hx. simpl. rewrite decide_True; [reflexivity|].
      apply (audit_answers _ _ _ _ _ Hx). auto.
    + apply hook_audits.
  - unfold strict_neq in E. apply negb_false_iff in E.
    rewrite (transition_same _ _ _ E). simpl. eauto.
Qed.

Lemma handle_audits reducer :
  (forall w answers, audits w answers (reducer (currentState w) w)) ->
  forall w answers, audits w answers (handle apply reducer w).
Proof.
  intros Hred w answers. pose proof (Hred w answers) as Hr.
  destruct (reducer (currentState w) w) as [next w1 t1|e w1 t1|] eqn:E.
  - rewrite (handle_Normal _ _ _ _ _ _ E). simpl in Hr. destruct Hr as [answers1 Hr].
    eapply audits_emitting with (w1 := w1) (answers1 := next :: answers1).
    + simpl. rewrite decide_True by reflexivity. rewrite audit_app, Hr. reflexivity.
    + apply transition_audits. apply elem_of_cons. auto.
  - rewrite (handle_Thrown _ _ _ _ _ _ E). simpl in *. destruct Hr as [answers1 Hr].
    exists answers1. rewrite decide_True by reflexivity. exact Hr.
  - unfold handle, bind, read_currentState, emit. simpl. rewrite E. exact I.
Qed.

Lemma dispatch_audits eventName args w answers :
  audits w answers (dispatch apply eventName args (currentState w) w).
Proof.
  destruct (truthy (lookup_member (heap w) (currentState w) eventName)) eqn:Tm.
  - rewrite (dispatch_hit apply eventName args _ w _ eq_refl Tm).
    eapply audits_emitting with (w1 := w) (answers1 := answers); [|apply apply_audits].
    simpl. rewrite decide_True by reflexivity. reflexivity.
  - destruct (holder (currentState w)) as [l|] eqn:Hl.
    + rewrite (dispatch_miss apply eventName args _ w l Hl Tm). simpl. eauto.
    + unfold dispatch, bind, get_member. rewrite Hl. simpl. eauto.
Qed.

Lemma invoke_audits eventName args w answers :
  audits w answers (invoke apply eventName args w).
Proof. unfold invoke. apply handle_audits. intros; apply dispatch_audits. Qed.

End Provenance.

Lemma get_member_audits v name w answers : audits w answers (get_member v name w).
Proof. unfold get_member. destruct (holder v); simpl; eauto. Qed.

(** Every run of host code passes the audit, however deep hooks and
    reducers call back into the machine. *)
Lemma exec_audits code fuel : forall p w answers, audits w answers (exec code fuel p w).
Proof.
  induction fuel as [|n IH]; intros p w answers; [exact I|].
  assert (Hap : forall f this args w0 a0,
             audits w0 a0 (apply_with code (exec code n) f this args w0)).
  { intros f this args w0 a0. unfold apply_with.
    destruct f; try (simpl; eauto; fail).
    destruct (code l); [apply IH|simpl; eauto]. }
  destruct p; simpl.
  - eauto.
  - eauto.
  - apply audits_bind; [apply get_member_audits|]. intros; apply IH.
  - apply audits_bind; [simpl; eauto|]. intros; apply IH.
  - apply audits_bind; [|intros; apply IH].
    apply handle_audits; [exact Hap|]. intros; apply IH.
  - apply audits_bind; [|intros; apply IH].
    apply invoke_audits. exact Hap.
Qed.

Lemma apply_fn_audits code fuel f this args w answers :
  audits w answers (apply_fn code fuel f this args w).
Proof.
  unfold apply_fn, apply_with. destruct f; try (simpl; eauto; fail).
  destruct (code l); [apply exec_audits|simpl; eauto].
Qed.

(** Host code that does not call the machine does not move it, and leaves
    no event. *)
Lemma exec_standalone code fuel : forall p w,
  standalone p ->
  match exec code fuel p w with
  | Normal _ w' t | Thrown _ w' t => currentState w' = currentState w /\ t = []
  | OutOfFuel => True
  end.
Proof.
  induction fuel as [|n IH]; intros p w Hp; [exact I|].
  destruct Hp as [v|v|v name k Hk|l name v k Hk]; simpl.
  - auto.
  - auto.
  - unfold bind, get_member. destruct (holder v); simpl; [|auto].
    specialize (IH (k (lookup_member (heap w) v name)) w (Hk _)).
    destruct (exec code n (k (lookup_member (heap w) v name)) w); simpl; auto.
  - unfold bind, set_member. simpl.
    match goal with |- context [exec code n k ?w1] =>
      specialize (IH k w1 Hk); destruct (exec code n k w1); simpl; auto end.
Qed.

(** ** More fuel changes no result *)

Lemma settled_refl {A} (o : outcome A) : settled o o.
Proof. right. reflexivity. Qed.

Lemma settled_trans {A} (o1 o2 o3 : outcome A) : settled o1 o2 -> settled o2 o3 -> settled o1 o3.
Proof. intros [->| ->]; [left; reflexivity|]. auto. Qed.

Lemma settled_bind {A B} (m1 m2 : M A) (k1 k2 : A -> M B) w :
  settled (m1 w) (m2 w) ->
  (forall a w', settled (k1 a w') (k2 a w')) ->
  settled (bind m1 k1 w) (bind m2 k2 w).
Proof.
  intros [H|H] Hk; unfold settled, bind; rewrite H; [auto|].
  destruct (m2 w) as [a w1 t1|e w1 t1|]; [|auto|auto].
  destruct (Hk a w1) as [->| ->]; auto.
Qed.

Ltac settle :=
  repeat first
    [ apply settled_refl
    | assumption
    | apply settled_bind; [|intros ? ?]
    | match goal with
      | |- settled (if ?b then _ else _) (if ?b then _ else _) => destruct b
      | |- settled ((if ?b then _ else _) _) ((if ?b then _ else _) _) => destruct b
      | H : forall f this args w, settled (_ f this args w) (_ f this args w) |- _ => apply H
      | H : forall s w, settled (_ s w) (_ s w) |- _ => apply H
      end ].

Section Fuel.

Variables apply1 apply2 : value -> value -> list value -> M value.

Hypothesis apply_settled :
  forall f this args w, settled (apply1 f this args w) (apply2 f this args w).

Lemma hook_settled name w : settled (hook apply1 name w) (hook apply2 name w).
Proof. unfold hook, call. settle. Qed.

Lemma transition_settled next w :
  settled (transition apply1 next w) (transition apply2 next w).
Proof.
  unfold transition. apply settled_bind; [apply settled_refl|]. intros c w1.
  destruct (strict_neq next c); [|apply settled_refl].
  apply settled_bind; [apply hook_settled|]. intros _ w2.
  apply settled_bind; [apply settled_refl|]. intros _ w3.
  apply settled_bind; [apply settled_refl|]. intros _ w4.
  apply hook_settled.
Qed.

Lemma handle_settled reducer1 reducer2 w :
  (forall s w', settled (reducer1 s w') (reducer2 s w')) ->
  settled (handle apply1 reducer1 w) (handle apply2 reducer2 w).
Proof.
  intros Hr. unfold handle.
  apply settled_bind; [apply settled_refl|]. intros s w1.
  apply settled_bind; [apply settled_refl|]. intros _ w2.
  apply settled_bind; [apply Hr|]. intros next w3.
  apply settled_bind; [apply settled_refl|]. intros _ w4.
  apply transition_settled.
Qed.

Lemma invoke_settled eventName args w :
  settled (invoke apply1 eventName args w) (invoke apply2 eventName args w).
Proof.
  unfold invoke. apply handle_settled. intros s w'. unfold dispatch, call. settle.
Qed.

End Fuel.

Lemma exec_body_settled code (run1 run2 : prog -> M value) :
  (forall p w, settled (run1 p w) (run2 p w)) ->
  forall p w, settled (exec_body code run1 p w) (exec_body code run2 p w).
Proof.
  intros Hrun.
  assert (Hap : forall f this args w,
             settled (apply_with code run1 f this args w) (apply_with code run2 f this args w)).
  { intros f this args w. unfold apply_with.
    destruct f; try apply settled_refl. destruct (code l); [apply Hrun|apply settled_refl]. }
  intros p w. destruct p; simpl.
  - apply settled_refl.
  - apply settled_refl.
  - apply settled_bind; [apply settled_refl|]. intros; apply Hrun.
  - apply settled_bind; [apply settled_refl|]. intros; apply Hrun.
  - apply settled_bind; [|intros; apply Hrun].
    apply handle_settled; [exact Hap|]. intros; apply Hrun.
  - apply settled_bind; [|intros; apply Hrun].
    apply invoke_settled. exact Hap.
Qed.

Lemma exec_step code fuel : forall p w, settled (exec code fuel p w) (exec code (S fuel) p w).
Proof.
  induction fuel as [|n IH]; intros p w; [left; reflexivity|].
  change (settled (exec_body code (exec code n) p w) (exec_body code (exec code (S n)) p w)).
  apply exec_body_settled. exact IH.
Qed.

(** A run that ended, ends the same way with any larger fuel. *)
Lemma exec_more_fuel code n m p w :
  n <= m -> exec code n p w <> OutOfFuel -> exec code m p w = exec code n p w.
Proof.
  intros Hle Hend.
  assert (H : settled (exec code n p w) (exec code m p w)).
  { induction Hle as [|m Hle IH]; [apply settled_refl|].
    eapply settled_trans; [exact IH|apply exec_step]. }
  destruct H as [H|H]; [contradiction|]. symmetry. exact H.
Qed.

(** A hook that leaves the machine alone leaves it in the state it was
    called in, which is what the failure cases of [handle] ask of it. *)
Lemma apply_fn_standalone code fuel l body this args w w' :
  code l = Some body ->
  standalone (body this args) ->
  final_world (apply_fn code fuel (VObj l) this args w) = Some w' ->
  currentState w' = currentState w.
Proof.
  intros Hc Hs. unfold apply_fn, apply_with. rewrite Hc.
  pose proof (exec_standalone code fuel _ w Hs) as H.
  destruct (exec code fuel (body this args) w); simpl in *; intros E;
    try discriminate; inversion E; subst; tauto.
Qed.

Lemma run_machine_audits code fuel initialState driver w :
  audits (set_currentState VNull w) [] (run_machine code fuel initialState driver w).
Proof.
  unfold run_machine, createStateMachine.
  set (h := handle (apply_fn code fuel) (fun _ => ret initialState)).
  assert (E : forall k : unit -> M value,
             bind (bind (write_currentState VNull) (fun _ => h)) k w
             = bind h k (set_currentState VNull w)).
  { intros k. unfold bind, write_currentState. simpl. rewrite emitting_nil. reflexivity. }
  rewrite E. apply audits_bind.
  - apply handle_audits; [intros; apply apply_fn_audits|]. intros; simpl; eauto.
  - intros; apply exec_audits.
Qed.

(** C8: over the life of a machine, at every point of the run, the state
    the machine is in is [null] or a value that a reducer (the one of the
    constructor, which answers [initialState], a reducer given to
    [handle], or a method dispatched by [invoke]) has returned before: the
    events of the run, and every prefix of them, pass the audit, which
    checks each state shown to a reducer or a callee and each assignment.
    The state changes at the assignments of [handle] only: host code that
    does not call the machine leaves it where it is. *)
Theorem currentState_provenance code fuel initialState driver w w' t :
  final_world (run_machine code fuel initialState driver w) = Some w' ->
  events (run_machine code fuel initialState driver w) = t ->
  (forall t1 t2, t = t1 ++ t2 ->
     exists c answers, audit VNull [] t1 = Some (c, answers) /\ (c = VNull \/ Reduced c ∈ t1))
  /\ (exists answers, audit VNull [] t = Some (currentState w', answers))
  /\ (currentState w' = VNull \/ currentState w' = initialState
      \/ Reduced (currentState w') ∈ t)
  /\ (forall p w0 w1, standalone p ->
        final_world (exec code fuel p w0) = Some w1 -> currentState w1 = currentState w0).
Proof.
  intros Hw Ht.
  assert (Ha : exists answers, audit VNull [] t = Some (currentState w', answers)).
  { pose proof (run_machine_audits code fuel initialState driver w) as H.
    destruct (run_machine code fuel initialState driver w); simpl in *;
      try discriminate; inversion Hw; subst; exact H. }
  assert (Hinv : forall c answers t0,
             audit VNull [] t0 = Some (c, answers) -> c = VNull \/ Reduced c ∈ t0).
  { intros c answers t0 H. destruct (audit_state _ _ _ _ _ H) as [|Hin]; [auto|].
    apply (audit_answers _ _ _ _ _ H) in Hin. destruct Hin as [Hin|]; [|auto].
    apply elem_of_nil in Hin. contradiction. }
  split; [|split; [exact Ha|split]].
  - intros t1 t2 ->. destruct Ha as [answers Ha].
    destruct (audit_prefix _ _ _ _ _ Ha) as [[c a1] H1].
    exists c, a1. split; [exact H1|]. eapply Hinv; eauto.
  - destruct Ha as [answers Ha]. destruct (Hinv _ _ _ Ha); auto.
  - intros p w0 w1 Hp H. pose proof (exec_standalone code fuel p w0 Hp) as Hs.
    destruct (exec code fuel p w0); simpl in *; try discriminate;
      inversion H; subst; tauto.
Qed.

(** ** The scenarios of the specification, run *)

Module Scenario.

Import Toggle Demo.

Example toggle_run :
  run_machine code 6 (VObj Off) driver start =
    Normal VUndefined inOff
      [ Reduce VNull; Reduced (VObj Off); Assign (VObj Off); Call (VObj markOff2) (VObj Off) [];
        Reduce (VObj Off); Call (VObj toOn) (VObj Off) []; Reduced (VObj On);
        Assign (VObj On); Call (VObj markOn) (VObj On) [];
        Reduce (VObj On); Call (VObj toOff) (VObj On) []; Reduced (VObj Off);
        Call (VObj markOff) (VObj On) []; Assign (VObj Off); Call (VObj markOff2) (VObj Off) [];
        Reduce (VObj Off); Reduced (VObj Off) ].
Proof. vm_compute. reflexivity. Qed.

(** A state whose [exit] throws: the error comes out of [handle] and the
    machine is still in that state. *)
Example failing_exit :
  handle ap' (fun _ => ret (VObj Off)) inFragile =
    Thrown (HostError (VStr "boom")) inFragile
      [ Reduce (VObj Fragile); Reduced (VObj Off); Call (VObj boom) (VObj Fragile) [] ].
Proof. vm_compute. reflexivity. Qed.

(** Identity, not structure: an object with the same members is another
    state, and the hooks run. *)
Example same_members_other_object :
  heap inOff' !! Off = heap inOff' !! Twin
  /\ handle ap' (fun _ => ret (VObj Twin)) inOff' =
       Normal tt inTwin
         [ Reduce (VObj Off); Reduced (VObj Twin); Assign (VObj Twin);
           Call (VObj markOff2) (VObj Twin) [] ].
Proof. split; vm_compute; reflexivity. Qed.

(** [NaN] is not identical to itself: the transition from [NaN] to [NaN]
    is committed, unseen. *)
Example nan_to_nan w :
  currentState w = VNaN ->
  handle ap' (fun s => ret s) w = Normal tt w [Reduce VNaN; Reduced VNaN; Assign VNaN].
Proof. destruct w as [c h]. simpl. intros ->. reflexivity. Qed.

End Scenario.

(** ** Hooks that call back into the machine, run *)

Module ReentrantRuns.

Import Reentrant.

(** The nested transition runs to its end inside the outer [entry]. *)
Example nested_transition :
  handle (apply_fn code 5) (fun _ => ret (VObj B)) inA =
    Normal tt inC
      [ Reduce (VObj A); Reduced (VObj B); Assign (VObj B); Call (VObj onwards) (VObj B) [];
        Reduce (VObj B); Reduced (VObj C); Assign (VObj C) ].
Proof. vm_compute. reflexivity. Qed.

(** When such a hook fails the machine is where the hook left it. *)
Example nested_then_fail :
  handle (apply_fn code 5) (fun _ => ret (VObj Bad)) inA =
    Thrown (HostError (VStr "late")) inC
      [ Reduce (VObj A); Reduced (VObj Bad); Assign (VObj Bad);
        Call (VObj onwards_then_fail) (VObj Bad) [];
        Reduce (VObj Bad); Reduced (VObj C); Assign (VObj C) ].
Proof. vm_compute. reflexivity. Qed.

End ReentrantRuns.

(** ** Where the specification and the code part *)

(** C5 as written fails on a machine built on [null]: [null] has no member
    of any name, yet [invoke] throws. *)
Lemma invoke_missing_member_null_state :
  createStateMachine Demo.ap' VNull Demo.fresh
    = Normal tt Demo.fresh [Reduce VNull; Reduced VNull]
  /\ has_member (heap Demo.fresh) (currentState Demo.fresh) "someEvent" = false
  /\ invoke Demo.ap' "someEvent" [] Demo.fresh = Thrown TypeError Demo.fresh [Reduce VNull].
Proof. repeat split; vm_compute; reflexivity. Qed.

(** C6 as written fails for the name [enter]: a state whose hook is under
    that name is made current without any call. *)
Lemma createStateMachine_ignores_enter :
  lookup_member (heap Demo.fresh) (VObj Demo.Legacy) "enter" = VObj Toggle.markOn
  /\ Demo.code' Toggle.markOn = Some (fun _ _ => Ret VUndefined)
  /\ createStateMachine Demo.ap' (VObj Demo.Legacy) Demo.fresh
     = Normal tt (set_currentState (VObj Demo.Legacy) Demo.fresh)
         [Reduce VNull; Reduced (VObj Demo.Legacy); Assign (VObj Demo.Legacy)].
Proof. repeat split; vm_compute; reflexivity. Qed.

(** C7 as written fails at [null]: the guard of the first [handle] is
    false, and nothing is assigned. *)
Lemma createStateMachine_null_guard_false :
  strict_neq VNull VNull = false
  /\ transition Demo.ap' VNull Demo.fresh = Normal tt Demo.fresh []
  /\ createStateMachine Demo.ap' VNull Demo.fresh
     = Normal tt Demo.fresh [Reduce VNull; Reduced VNull]
  /\ Assign VNull ∉ events (createStateMachine Demo.ap' VNull Demo.fresh).
Proof.
  repeat split; try (vm_compute; reflexivity).
  assert (E : events (createStateMachine Demo.ap' VNull Demo.fresh)
             = [Reduce VNull; Reduced VNull]) by (vm_compute; reflexivity).
  rewrite E, !elem_of_cons, elem_of_nil.
  intros [H|[H|H]]; [discriminate|discriminate|contradiction].
Qed.

(** ** The theorems at work on the toggle machine *)

Module Witness.

Import Toggle Demo.

Lemma handle_exit_assign_entry_witness :
  handle ap (fun _ => ret (VObj Off)) inOn =
    Normal tt inOff
      [ Reduce (VObj On); Reduced (VObj Off); Call (VObj markOff) (VObj On) [];
        Assign (VObj Off); Call (VObj markOff2) (VObj Off) [] ]
  /\ currentState inOn <> VObj Off.
Proof.
  pose proof (handle_exit_assign_entry ap (fun _ => ret (VObj Off)) inOn (VObj Off) inOn []
                (VObj On) (VObj markOff) VUndefined inOn [] (VObj markOff2)) as H.
  destruct H as [H1 [H2 _]];
    [reflexivity .. | split; [rewrite H1; reflexivity|exact H2]].
Defined.

Lemma handle_failure_points_witness :
  currentState <$> final_world (handle ap' (fun _ => throw (HostError (VStr "no"))) inOn')
    = Some (VObj On)
  /\ currentState <$> final_world (handle ap' (fun _ => ret (VObj Off)) inFragile)
    = Some (VObj Fragile)
  /\ currentState <$> final_world (handle ap' (fun _ => ret (VObj Stuck)) inOn')
    = Some (VObj Stuck).
Proof.
  split; [|split].
  - destruct (handle_failure_points ap' (fun _ => throw (HostError (VStr "no"))) inOn')
      as [Ha _].
    destruct (Ha (HostError (VStr "no")) inOn' []) as [_ K];
      [reflexivity .. | apply K; reflexivity].
  - destruct (handle_failure_points ap' (fun _ => ret (VObj Off)) inFragile) as [_ [Hb _]].
    destruct (Hb (VObj Off) inFragile [] (VObj Fragile) (VObj boom)
                (HostError (VStr "boom")) inFragile []) as [_ K];
      [reflexivity .. | apply K; reflexivity].
  - destruct (handle_failure_points ap' (fun _ => ret (VObj Stuck)) inOn') as [_ [_ Hc]].
    destruct (Hc (VObj Stuck) inOn' [] inOn' [Call (VObj markOff) (VObj On) []] (VObj boom)
                (HostError (VStr "boom")) inStuck []) as [_ K];
      [reflexivity .. | apply K; reflexivity].
Defined.

Lemma handle_same_state_noop_witness :
  handle ap (fun s => ret s) inOn = Normal tt inOn [Reduce (VObj On); Reduced (VObj On)].
Proof.
  destruct (handle_same_state_noop ap (fun s => ret s) inOn (VObj On) inOn []) as [H _];
    [reflexivity .. | rewrite H; reflexivity].
Defined.

Lemma handle_falsy_next_witness :
  handle ap (fun _ => ret (VNum 0)) inOff =
    Normal tt (set_currentState (VNum 0) inOff)
      [Reduce (VObj Off); Reduced (VNum 0); Assign (VNum 0)]
  /\ handle ap (fun _ => ret VNull) inOn =
    Normal tt (set_currentState VNull inOn)
      [Reduce (VObj On); Reduced VNull; Call (VObj markOff) (VObj On) []; Assign VNull].
Proof.
  split.
  - destruct (handle_falsy_next ap (fun _ => ret (VNum 0)) inOff (VNum 0) inOff [])
      as [H _]; [reflexivity .. | rewrite H; [reflexivity|right; reflexivity]].
  - destruct (handle_falsy_next ap (fun _ => ret VNull) inOn VNull inOn [])
      as [_ H]; [reflexivity .. | rewrite (H (VObj markOff) VUndefined inOn []); reflexivity].
Defined.


Lemma invoke_missing_member_noop_witness :
  invoke ap "missing" [] inOff = Normal tt inOff [Reduce (VObj Off); Reduced (VObj Off)].
Proof.
  rewrite (invoke_missing_member_noop ap "missing" [] inOff);
    [reflexivity|discriminate|discriminate|reflexivity].
Defined.

Lemma invoke_on_null_state_throws_witness :
  invoke ap' "anything" [] fresh = Thrown TypeError fresh [Reduce VNull].
Proof.
  rewrite (invoke_on_null_state_throws ap' "anything" [] fresh); [reflexivity|].
  left. reflexivity.
Defined.

Lemma createStateMachine_calls_entry_once_witness :
  createStateMachine ap (VObj Off) start =
    Normal tt inOff
      [ Reduce VNull; Reduced (VObj Off); Assign (VObj Off);
        Call (VObj markOff2) (VObj Off) [] ].
Proof.
  rewrite (createStateMachine_calls_entry_once ap (VObj Off) start (VObj markOff2)
             VUndefined inOff []); reflexivity.
Defined.

Lemma createStateMachine_first_transition_witness :
  createStateMachine ap (VObj Off) start =
    Normal tt inOff
      [ Reduce VNull; Reduced (VObj Off); Assign (VObj Off);
        Call (VObj markOff2) (VObj Off) [] ].
Proof.
  destruct (createStateMachine_first_transition ap (VObj Off) start) as [_ [_ [H _]]].
  rewrite H; [reflexivity|discriminate].
Defined.

Lemma currentState_provenance_witness :
  currentState inOff = VNull \/ currentState inOff = VObj Off
  \/ Reduced (currentState inOff) ∈ events (run_machine code 6 (VObj Off) driver start).
Proof.
  refine (proj1 (proj2 (proj2
    (currentState_provenance code 6 (VObj Off) driver start inOff _ _ eq_refl)))).
  vm_compute. reflexivity.
Defined.

End Witness.

(** ** Members that are not functions *)

Lemma apply_fn_not_callable code fuel f this args w :
  callable code f = false -> apply_fn code fuel f this args w = Thrown TypeError w [].
Proof.
  unfold callable, apply_fn, apply_with. destruct f; try reflexivity.
  destruct (code l); [discriminate|reflexivity].
Qed.

Section NotAFunction.

Variable code : code_t.
Variable fuel : nat.

(** X1: a truthy [exit] or [entry] member that is not a function makes
    [handle] throw a TypeError at the call: for [exit] before the
    assignment, the machine staying in the old state; for [entry] after
    it, the machine being left in the new state. *)
Theorem handle_hook_not_a_function reducer w next w1 t1 :
  reducer (currentState w) w = Normal next w1 t1 ->
  strict_neq next (currentState w1) = true ->
  (forall hx,
      truthy (currentState w1) = true ->
      lookup_member (heap w1) (currentState w1) "exit" = hx ->
      truthy hx = true ->
      callable code hx = false ->
      handle (apply_fn code fuel) reducer w =
        Thrown TypeError w1
          ([Reduce (currentState w)] ++ t1 ++ [Reduced next; Call hx (currentState w1) []]))
  /\ (forall w2 t2 he,
      hook (apply_fn code fuel) "exit" w1 = Normal tt w2 t2 ->
      truthy next = true ->
      lookup_member (heap w2) next "entry" = he ->
      truthy he = true ->
      callable code he = false ->
      handle (apply_fn code fuel) reducer w =
        Thrown TypeError (set_currentState next w2)
          ([Reduce (currentState w)] ++ t1 ++ [Reduced next] ++ t2
           ++ [Assign next; Call he next []])).
Proof.
  intros Hr Hne. split.
  - intros hx Told Hx Thx Hc.
    rewrite (handle_Normal _ _ _ _ _ _ Hr), (transition_fires _ _ _ Hne).
    rewrite (hook_fires _ _ _ _ Told Hx Thx).
    rewrite (void_Thrown _ _ _ _ _ (apply_fn_not_callable code fuel hx _ [] w1 Hc)).
    simpl. f_equal. trace_eq.
  - intros w2 t2 he Hexit Tnext He The Hc.
    rewrite (handle_Normal _ _ _ _ _ _ Hr), (transition_fires _ _ _ Hne), Hexit.
    rewrite (hook_fires _ "entry" (set_currentState next w2) he Tnext He The). simpl.
    rewrite (void_Thrown _ _ _ _ _
               (apply_fn_not_callable code fuel he next [] (set_currentState next w2) Hc)).
    simpl. f_equal. trace_eq.
Qed.

(** X2: an event named after a member that holds a truthy value which
    is not a function, and which has no function under [apply] to be
    called in its place (a flag, a counter, a string), makes [invoke]
    throw a TypeError; nothing is assigned and the world is as before.
    (Line 31 calls [state[eventName].apply]: a member that is no
    function but carries a function under [apply] is outside this
    statement.) *)
Theorem invoke_member_not_a_function eventName args w m :
  lookup_member (heap w) (currentState w) eventName = m ->
  truthy m = true ->
  callable code m = false ->
  callable code (lookup_member (heap w) m "apply") = false ->
  invoke (apply_fn code fuel) eventName args w =
    Thrown TypeError w [Reduce (currentState w); Call m (currentState w) args].
Proof.
  intros Hm Tm Hc _. unfold invoke.
  assert (Hd : dispatch (apply_fn code fuel) eventName args (currentState w) w
               = Thrown TypeError w [Call m (currentState w) args]).
  { rewrite (dispatch_hit _ _ _ _ _ _ Hm Tm).
    rewrite (apply_fn_not_callable code fuel m _ args w Hc). reflexivity. }
  rewrite (handle_Thrown _ _ _ _ _ _ Hd). reflexivity.
Qed.

End NotAFunction.

(** ** Event handlers: the other answers *)

Section Handlers.

Variable apply : value -> value -> list value -> M value.

(** X3: a member that is there but holds a falsy value ([false], [0], the
    empty string, [null], [undefined], [NaN]) counts as no handler:
    [invoke] returns normally, calls nothing and leaves the world as it
    was. *)
Theorem invoke_falsy_member_noop eventName args w :
  currentState w <> VNull ->
  currentState w <> VUndefined ->
  truthy (lookup_member (heap w) (currentState w) eventName) = false ->
  invoke apply eventName args w =
    Normal tt w ([Reduce (currentState w); Reduced (currentState w)]
                 ++ if strict_eq (currentState w) (currentState w) then []
                    else [Assign (currentState w)]).
Proof.
  intros Hnull Hundef Hfalsy. unfold invoke.
  destruct (holder (currentState w)) as [l|] eqn:Hl;
    [|destruct (currentState w); try discriminate; congruence].
  rewrite (handle_Normal _ _ _ _ _ _ (dispatch_miss apply eventName args _ w l Hl Hfalsy)).
  destruct (strict_eq (currentState w) (currentState w)) eqn:E.
  - rewrite (transition_same _ _ _ E). reflexivity.
  - assert (Hnan : currentState w = VNaN).
    { destruct (decide (currentState w = VNaN)) as [|Hn]; [assumption|].
      rewrite (strict_eq_refl _ Hn) in E. discriminate. }
    assert (Hf : truthy (currentState w) = false) by (rewrite Hnan; reflexivity).
    assert (Hne : strict_neq (currentState w) (currentState w) = true)
      by (unfold strict_neq; rewrite E; reflexivity).
    rewrite (transition_fires _ _ _ Hne), (hook_falsy_state _ _ _ Hf).
    rewrite (hook_falsy_state _ "entry" (set_currentState (currentState w) w) Hf).
    simpl. rewrite set_currentState_same. reflexivity.
Qed.

(** X4: a handler that returns nothing answers [undefined], and [invoke]
    takes that for the next state: the old state is left (its [exit]
    runs, if any), the machine is in [undefined], and from then on every
    [invoke] throws a TypeError. *)
Theorem invoke_handler_without_return eventName args w m w1 t1 w2 t2 :
  lookup_member (heap w) (currentState w) eventName = m ->
  truthy m = true ->
  apply m (currentState w) args w = Normal VUndefined w1 t1 ->
  currentState w1 <> VUndefined ->
  hook apply "exit" w1 = Normal tt w2 t2 ->
  invoke apply eventName args w =
    Normal tt (set_currentState VUndefined w2)
      ([Reduce (currentState w); Call m (currentState w) args] ++ t1
       ++ [Reduced VUndefined] ++ t2 ++ [Assign VUndefined])
  /\ forall eventName' args',
      invoke apply eventName' args' (set_currentState VUndefined w2) =
        Thrown TypeError (set_currentState VUndefined w2) [Reduce VUndefined].
Proof.
  intros Hm Tm Hcall Hdef Hexit. split.
  - unfold invoke.
    assert (Hd : dispatch apply eventName args (currentState w) w
                 = Normal VUndefined w1 ([Call m (currentState w) args] ++ t1)).
    { rewrite (dispatch_hit _ _ _ _ _ _ Hm Tm), Hcall. reflexivity. }
    assert (Hne : strict_neq VUndefined (currentState w1) = true).
    { destruct (currentState w1); try reflexivity. congruence. }
    rewrite (handle_Normal _ _ _ _ _ _ Hd), (transition_fires _ _ _ Hne), Hexit.
    rewrite (hook_falsy_state _ "entry" (set_currentState VUndefined w2) eq_refl).
    simpl. f_equal. trace_eq.
  - intros eventName' args'. unfold invoke.
    assert (Hd : dispatch apply eventName' args' VUndefined (set_currentState VUndefined w2)
                 = Thrown TypeError (set_currentState VUndefined w2) []) by reflexivity.
    rewrite (handle_Thrown apply _ (set_currentState VUndefined w2) _ _ _ Hd). reflexivity.
Qed.

(** X5: a handler that throws: the exception comes out of [invoke] with
    the world the handler left; there is no transition, no hook runs and
    nothing is assigned. *)
Theorem invoke_handler_throws eventName args w m e w1 t1 :
  lookup_member (heap w) (currentState w) eventName = m ->
  truthy m = true ->
  apply m (currentState w) args w = Thrown e w1 t1 ->
  invoke apply eventName args w =
    Thrown e w1 ([Reduce (currentState w); Call m (currentState w) args] ++ t1).
Proof.
  intros Hm Tm Hcall. unfold invoke.
  assert (Hd : dispatch apply eventName args (currentState w) w
               = Thrown e w1 ([Call m (currentState w) args] ++ t1)).
  { rewrite (dispatch_hit _ _ _ _ _ _ Hm Tm), Hcall. reflexivity. }
  rewrite (handle_Thrown _ _ _ _ _ _ Hd). reflexivity.
Qed.

(** X6: a handler that answers with the state the machine is in (it
    handled the event and stays): the handler runs, and nothing else. *)
Theorem invoke_handler_stays eventName args w m r w1 t1 :
  lookup_member (heap w) (currentState w) eventName = m ->
  truthy m = true ->
  apply m (currentState w) args w = Normal r w1 t1 ->
  strict_eq r (currentState w1) = true ->
  invoke apply eventName args w =
    Normal tt w1 ([Reduce (currentState w); Call m (currentState w) args] ++ t1 ++ [Reduced r]).
Proof.
  intros Hm Tm Hcall Hsame. unfold invoke.
  assert (Hd : dispatch apply eventName args (currentState w) w
               = Normal r w1 ([Call m (currentState w) args] ++ t1)).
  { rewrite (dispatch_hit _ _ _ _ _ _ Hm Tm), Hcall. reflexivity. }
  rewrite (handle_Normal _ _ _ _ _ _ Hd), (transition_same _ _ _ Hsame).
  simpl. f_equal. trace_eq.
Qed.

(** X7: construction on a value that is falsy, or has no truthy [entry]
    member, cannot fail: it returns with the machine in that value and
    has called nothing. *)
Theorem createStateMachine_without_entry initialState w :
  truthy initialState = false
  \/ truthy (lookup_member (heap w) initialState "entry") = false ->
  createStateMachine apply initialState w =
    Normal tt (set_currentState initialState w)
      ([Reduce VNull; Reduced initialState]
       ++ if strict_neq initialState VNull then [Assign initialState] else []).
Proof.
  intros H. unfold createStateMachine, bind, write_currentState. simpl.
  set (w0 := set_currentState VNull w).
  assert (Hr : (fun _ : value => ret initialState) (currentState w0) w0 = Normal initialState w0 [])
    by reflexivity.
  rewrite (handle_Normal apply (fun _ => ret initialState) w0 initialState w0 [] Hr).
  destruct (strict_neq initialState VNull) eqn:E.
  - rewrite (transition_fires apply initialState w0 E).
    rewrite (hook_falsy_state apply "exit" w0 eq_refl).
    assert (Hentry : hook apply "entry" (set_currentState initialState w0)
                     = Normal tt (set_currentState initialState w0) []).
    { destruct H; [apply hook_falsy_state|apply hook_no_member]; assumption. }
    rewrite Hentry. reflexivity.
  - assert (Hnull : initialState = VNull).
    { unfold strict_neq in E. apply negb_false_iff in E. apply strict_eq_true. exact E. }
    subst initialState. reflexivity.
Qed.

End Handlers.

(** ** A hook that calls the machine while the machine is leaving *)

Section ExitReentry.

Variable code : code_t.

(** While [exit] runs the machine is still in the old state, so a
    transition started from there finds the same [exit] to call. *)
Lemma exec_exit_reentry hx body next k w :
  code hx = Some body ->
  body (currentState w) [] = Handle (fun _ => Ret next) k ->
  truthy (currentState w) = true ->
  lookup_member (heap w) (currentState w) "exit" = VObj hx ->
  strict_neq next (currentState w) = true ->
  forall fuel, exec code fuel (Handle (fun _ => Ret next) k) w = OutOfFuel.
Proof.
  intros Hc Hb Told Hx Hne fuel. induction fuel as [|n IH]; [reflexivity|].
  change (exec code (S n) (Handle (fun _ => Ret next) k) w)
    with (bind (handle (apply_with code (exec code n)) (fun s => exec code n (Ret next)))
               (fun _ => exec code n k) w).
  assert (Hh : handle (apply_with code (exec code n)) (fun s => exec code n (Ret next)) w
               = OutOfFuel).
  { destruct n as [|n'].
    - reflexivity.
    - assert (Hr : (fun s : value => exec code (S n') (Ret next)) (currentState w) w
                   = Normal next w []) by reflexivity.
      rewrite (handle_Normal _ (fun s => exec code (S n') (Ret next)) w next w [] Hr).
      rewrite (transition_fires _ _ _ Hne).
      rewrite (hook_fires _ "exit" w (VObj hx) Told Hx eq_refl).
      unfold void, bind, apply_with. rewrite Hc, Hb, IH. reflexivity. }
  unfold bind. rewrite Hh. reflexivity.
Qed.

(** X8: an [exit] hook that itself asks the machine for a transition to
    another state never returns: the nested [handle] finds the machine
    still in the old state and calls the same hook again, without bound
    (no amount of fuel gives a result; in JavaScript the call stack runs
    out). *)
Theorem exit_hook_reentry_never_returns hx body next k reducer w t1 :
  code hx = Some body ->
  body (currentState w) [] = Handle (fun _ => Ret next) k ->
  truthy (currentState w) = true ->
  lookup_member (heap w) (currentState w) "exit" = VObj hx ->
  strict_neq next (currentState w) = true ->
  reducer (currentState w) w = Normal next w t1 ->
  forall fuel, handle (apply_fn code fuel) reducer w = OutOfFuel.
Proof.
  intros Hc Hb Told Hx Hne Hr fuel.
  rewrite (handle_Normal _ _ _ _ _ _ Hr), (transition_fires _ _ _ Hne).
  rewrite (hook_fires _ "exit" w (VObj hx) Told Hx eq_refl).
  unfold void, bind, apply_fn, apply_with. rewrite Hc, Hb.
  rewrite (exec_exit_reentry hx body next k w Hc Hb Told Hx Hne fuel). reflexivity.
Qed.

End ExitReentry.

(** ** The machine writes no object *)

Lemma keeps_heap_emitting {A} w t (o : outcome A) : keeps_heap w o -> keeps_heap w (emitting t o).
Proof. destruct o; simpl; auto. Qed.

Lemma keeps_heap_bind {A B} (m : M A) (k : A -> M B) w :
  keeps_heap w (m w) ->
  (forall a w1 t1, m w = Normal a w1 t1 -> keeps_heap w1 (k a w1)) ->
  keeps_heap w (bind m k w).
Proof.
  intros Hm Hk. unfold bind. destruct (m w) as [a w1 t1|e w1 t1|] eqn:E; simpl in *; auto.
  specialize (Hk a w1 t1 eq_refl). destruct (k a w1); simpl in *; congruence.
Qed.

Section HeapFrame.

Variable apply : value -> value -> list value -> M value.

Hypothesis apply_keeps_heap : forall f this args w, keeps_heap w (apply f this args w).

Lemma hook_keeps_heap name w : keeps_heap w (hook apply name w).
Proof.
  destruct (truthy (currentState w)) eqn:T.
  - destruct (truthy (lookup_member (heap w) (currentState w) name)) eqn:Tf.
    + rewrite (hook_fires apply name w _ T eq_refl Tf). apply keeps_heap_emitting.
      unfold void. apply keeps_heap_bind; [apply apply_keeps_heap|].
      intros; reflexivity.
    + rewrite (hook_no_member apply name w Tf). reflexivity.
  - rewrite (hook_falsy_state apply name w T). reflexivity.
Qed.

Lemma transition_keeps_heap next w : keeps_heap w (transition apply next w).
Proof.
  destruct (strict_neq next (currentState w)) eqn:E.
  - rewrite (transition_fires _ _ _ E).
    pose proof (hook_keeps_heap "exit" w) as Hx.
    destruct (hook apply "exit" w) as [[] w2 t2|e w2 t2|]; simpl in Hx; [|exact Hx|exact I].
    apply keeps_heap_emitting.
    pose proof (hook_keeps_heap "entry" (set_currentState next w2)) as He.
    destruct (hook apply "entry" (set_currentState next w2)); simpl in *; congruence.
  - unfold strict_neq in E. apply negb_false_iff in E.
    rewrite (transition_same _ _ _ E). reflexivity.
Qed.

Lemma handle_keeps_heap reducer w :
  keeps_heap w (reducer (currentState w) w) -> keeps_heap w (handle apply reducer w).
Proof.
  intros Hr. destruct (reducer (currentState w) w) as [next w1 t1|e w1 t1|] eqn:E.
  - rewrite (handle_Normal _ _ _ _ _ _ E). apply keeps_heap_emitting.
    pose proof (transition_keeps_heap next w1) as Ht.
    destruct (transition apply next w1); simpl in *; congruence.
  - rewrite (handle_Thrown _ _ _ _ _ _ E). exact Hr.
  - unfold handle, bind, read_currentState, emit. simpl. rewrite E. exact I.
Qed.

Lemma dispatch_keeps_heap eventName args s w : keeps_heap w (dispatch apply eventName args s w).
Proof.
  destruct (truthy (lookup_member (heap w) s eventName)) eqn:Tm.
  - rewrite (dispatch_hit apply eventName args s w _ eq_refl Tm).
    apply keeps_heap_emitting, apply_keeps_heap.
  - destruct (holder s) as [l|] eqn:Hl.
    + rewrite (dispatch_miss apply eventName args s w l Hl Tm). reflexivity.
    + unfold dispatch, bind, get_member. rewrite Hl. reflexivity.
Qed.

(** X9: the machine reads members and never writes one: when the
    functions the host runs leave every object as it is, so do [handle]
    (given such a reducer), [invoke] and [createStateMachine]. *)
Theorem machine_keeps_heap w :
  (forall reducer, keeps_heap w (reducer (currentState w) w) ->
                   keeps_heap w (handle apply reducer w))
  /\ (forall eventName args, keeps_heap w (invoke apply eventName args w))
  /\ (forall initialState, keeps_heap w (createStateMachine apply initialState w)).
Proof.
  split; [|split].
  - intros reducer. apply handle_keeps_heap.
  - intros eventName args. unfold invoke. apply handle_keeps_heap, dispatch_keeps_heap.
  - intros initialState. unfold createStateMachine.
    apply keeps_heap_bind; [reflexivity|]. intros [] w1 t1 E. inversion E; subst.
    pose proof (handle_keeps_heap (fun _ => ret initialState) (set_currentState VNull w)
                  eq_refl) as H.
    exact H.
Qed.

End HeapFrame.

(** ** The machine of the README: [getState] and [setState] *)

Section ReadmeFacts.

Variable apply : value -> value -> list value -> M value.

Lemma enter_hook_nullish w :
  currentState w = VNull \/ currentState w = VUndefined ->
  Readme.enter_hook apply w = Thrown TypeError w [].
Proof.
  intros H. unfold Readme.enter_hook, bind, read_currentState, get_member. simpl.
  destruct H as [-> | ->]; reflexivity.
Qed.

Lemma enter_hook_no_member w :
  currentState w <> VNull ->
  currentState w <> VUndefined ->
  truthy (lookup_member (heap w) (currentState w) "enter") = false ->
  Readme.enter_hook apply w = Normal tt w [].
Proof.
  intros Hn Hu Hf. unfold Readme.enter_hook, bind, read_currentState. simpl.
  destruct (holder (currentState w)) as [l|] eqn:Hl;
    [|destruct (currentState w); try discriminate; congruence].
  rewrite (get_member_ok _ _ _ _ Hl). simpl. rewrite Hf. reflexivity.
Qed.

Lemma enter_hook_fires w f :
  lookup_member (heap w) (currentState w) "enter" = f ->
  truthy f = true ->
  Readme.enter_hook apply w =
    emitting [Call f (currentState w) []] (void (apply f (currentState w) []) w).
Proof.
  intros Hf Tf. unfold Readme.enter_hook, bind, read_currentState. simpl.
  assert (Hh : exists l, holder (currentState w) = Some l).
  { apply (truthy_member_holder (heap w) _ "enter"). rewrite Hf. exact Tf. }
  destruct Hh as [l Hl].
  rewrite (get_member_ok _ _ _ _ Hl). simpl. rewrite Hf, Tf. simpl.
  rewrite (get_member_ok _ _ _ _ Hl). simpl. rewrite Hf.
  unfold call, void, bind, emit. simpl.
  destruct (apply f (currentState w) [] w); simpl; rewrite ?app_nil_r; reflexivity.
Qed.

Lemma setState_same next w :
  strict_eq next (currentState w) = true -> Readme.setState apply next w = Normal tt w [].
Proof.
  intros H. unfold Readme.setState, bind, read_currentState, strict_neq. simpl.
  rewrite H. reflexivity.
Qed.

Lemma setState_fires next w :
  strict_neq next (currentState w) = true ->
  Readme.setState apply next w =
    match hook apply "exit" w with
    | Normal _ w2 t2 =>
        emitting (t2 ++ [Assign next]) (Readme.enter_hook apply (set_currentState next w2))
    | Thrown e w2 t2 => Thrown e w2 t2
    | OutOfFuel => OutOfFuel
    end.
Proof.
  intros H. unfold Readme.setState at 1. unfold bind at 1. unfold read_currentState at 1.
  rewrite H. simpl. unfold bind at 1.
  destruct (hook apply "exit" w) as [[] w2 t2|e w2 t2|]; simpl; try reflexivity.
  unfold bind, emit, write_currentState. simpl.
  rewrite !emitting_app, app_nil_r. reflexivity.
Qed.

(** X10: [setState(null)] and [setState(undefined)], on a machine in
    another state, throw a TypeError at [_state.enter], after the old
    state's [exit] and after the assignment: the machine is left in
    [null] or [undefined]. ([handle] of [index.js] tests the new state
    and returns normally.) *)
Theorem Readme_setState_nullish nextState w w2 t2 :
  nextState = VNull \/ nextState = VUndefined ->
  strict_neq nextState (currentState w) = true ->
  hook apply "exit" w = Normal tt w2 t2 ->
  Readme.setState apply nextState w =
    Thrown TypeError (set_currentState nextState w2) (t2 ++ [Assign nextState]).
Proof.
  intros Hn Hne Hexit. rewrite (setState_fires _ _ Hne), Hexit.
  rewrite (enter_hook_nullish (set_currentState nextState w2) Hn).
  simpl. rewrite app_nil_r. reflexivity.
Qed.

(** X11: [getState] after [setState(s)] answers [s], for every [s] other
    than [null] and [undefined] that has no [enter] hook to run, whether
    the machine was in [s] already or not. *)
Theorem Readme_setState_getState nextState w w2 t2 :
  nextState <> VNull ->
  nextState <> VUndefined ->
  hook apply "exit" w = Normal tt w2 t2 ->
  truthy (lookup_member (heap w2) nextState "enter") = false ->
  (let* _ := Readme.setState apply nextState in Readme.getState) w =
    if strict_neq nextState (currentState w)
    then Normal nextState (set_currentState nextState w2) (t2 ++ [Assign nextState])
    else Normal nextState w [].
Proof.
  intros Hn Hu Hexit Hf. unfold bind at 1.
  destruct (strict_neq nextState (currentState w)) eqn:E.
  - rewrite (setState_fires _ _ E), Hexit.
    rewrite (enter_hook_no_member (set_currentState nextState w2) Hn Hu Hf).
    simpl. rewrite !app_nil_r. reflexivity.
  - unfold strict_neq in E. apply negb_false_iff in E.
    rewrite (setState_same _ _ E). simpl.
    rewrite (strict_eq_true _ _ E). reflexivity.
Qed.

(** X12: construction by the README's function: on [undefined] nothing
    happens at all, the variable being [undefined] from the start; on
    [null] it throws a TypeError, the variable already [null]; on any
    other value without an [enter] hook it returns with the machine in
    that value. *)
Theorem Readme_createStateMachine_cases initialState w :
  truthy (lookup_member (heap w) initialState "enter") = false ->
  Readme.createStateMachine apply initialState w =
    match initialState with
    | VUndefined => Normal tt (set_currentState VUndefined w) []
    | VNull => Thrown TypeError (set_currentState VNull w) [Assign VNull]
    | _ => Normal tt (set_currentState initialState w) [Assign initialState]
    end.
Proof.
  intros Hf. unfold Readme.createStateMachine. unfold bind at 1. unfold write_currentState at 1.
  rewrite emitting_nil. set (w0 := set_currentState VUndefined w).
  assert (Hexit : hook apply "exit" w0 = Normal tt w0 [])
    by (apply hook_falsy_state; reflexivity).
  destruct (decide (initialState = VUndefined)) as [->|Hu].
  { rewrite (setState_same VUndefined w0 eq_refl). reflexivity. }
  assert (Hne : strict_neq initialState (currentState w0) = true).
  { destruct initialState; try reflexivity. congruence. }
  rewrite (setState_fires _ _ Hne), Hexit.
  destruct (decide (initialState = VNull)) as [->|Hn].
  { rewrite (enter_hook_nullish (set_currentState VNull w0)); [reflexivity|left; reflexivity]. }
  rewrite (enter_hook_no_member (set_currentState initialState w0) Hn Hu Hf).
  destruct initialState; try congruence; reflexivity.
Qed.

(** X13: the two machines agree on a truthy next state whose [enter] and
    [entry] members are the same once the old state has been left:
    [setState(s)] of the README does what lines 9 to 17 of [index.js] do
    with the answer [s]. *)
Theorem Readme_setState_agrees_with_transition nextState w :
  truthy nextState = true ->
  (forall w2 t2, hook apply "exit" w = Normal tt w2 t2 ->
     lookup_member (heap w2) nextState "enter" = lookup_member (heap w2) nextState "entry") ->
  Readme.setState apply nextState w = transition apply nextState w.
Proof.
  intros T Hsame. destruct (strict_neq nextState (currentState w)) eqn:E.
  - rewrite (setState_fires _ _ E), (transition_fires _ _ _ E).
    destruct (hook apply "exit" w) as [[] w2 t2|e w2 t2|] eqn:Hexit; try reflexivity.
    f_equal. specialize (Hsame w2 t2 eq_refl).
    set (w3 := set_currentState nextState w2).
    destruct (truthy (lookup_member (heap w3) (currentState w3) "entry")) eqn:Tf.
    + rewrite (hook_fires apply "entry" w3 _ T eq_refl Tf).
      apply enter_hook_fires; [exact Hsame|exact Tf].
    + rewrite (hook_no_member apply "entry" w3 Tf).
      apply enter_hook_no_member.
      * intros K. simpl in K. rewrite K in T. discriminate.
      * intros K. simpl in K. rewrite K in T. discriminate.
      * simpl. rewrite Hsame. exact Tf.
  - unfold strict_neq in E. apply negb_false_iff in E.
    rewrite (setState_same _ _ E), (transition_same _ _ _ E). reflexivity.
Qed.

End ReadmeFacts.

(** ** The message buffer: the two versions side by side *)

Section NormalBuffer.

Import Buffer.

Variable run : subscribers normal.

Lemma normal_run_app ops1 ops2 b log :
  normal_run run (ops1 ++ ops2) b log =
    let '(a1, b1, log1) := normal_run run ops1 b log in
    let '(a2, b2, log2) := normal_run run ops2 b1 log1 in
    (a1 ++ a2, b2, log2).
Proof.
  revert b log. induction ops1 as [|o ops1 IH]; intros b log; simpl.
  - destruct (normal_run run ops2 b log) as [[a2 b2] log2]. reflexivity.
  - destruct (normal_step run o b log) as [[a b'] log'].
    rewrite IH. destruct (normal_run run ops1 b' log') as [[a1 b1] log1].
    destruct (normal_run run ops2 b1 log1) as [[a2 b2] log2]. reflexivity.
Qed.

(** Pushing while disconnected lengthens the queue and calls nobody. *)
Lemma normal_run_pushes_queued messages : forall subscriber queue log,
  normal_run run (map Push messages)
    {| _connected := false; _subscriber := subscriber; _queue := Some queue |} log =
    (map (fun _ => Done) messages,
     {| _connected := false; _subscriber := subscriber; _queue := Some (queue ++ messages) |},
     log).
Proof.
  induction messages as [|m messages IH]; intros subscriber queue log; simpl.
  - rewrite app_nil_r. reflexivity.
  - rewrite IH. rewrite <- app_assoc. reflexivity.
Qed.

(** From here on the subscribers may read the buffer ([isConnected]) and
    throw, and do not change it. *)
Hypothesis run_untouched :
  forall subscriber message b log, untouched b (run subscriber message b log).

Lemma forEach_untouched subscriber queue : forall b log,
  untouched b (forEach run subscriber queue b log).
Proof.
  induction queue as [|m queue IH]; intros b log; simpl; [reflexivity|].
  unfold call_subscriber.
  pose proof (run_untouched subscriber m b (log ++ [(subscriber, m)])) as H.
  destruct (run subscriber m b (log ++ [(subscriber, m)])) as [[] b' log'|e b' log'];
    simpl in H; subst b'; [apply IH|reflexivity].
Qed.

Lemma normal_step_queueing o b log :
  queueing b -> queueing (snd (fst (normal_step run o b log))).
Proof.
  intros Hq. destruct o as [message|subscriber| |]; simpl.
  - unfold normal_push. destruct (_connected b) eqn:C.
    + unfold call_subscriber.
      pose proof (run_untouched (_subscriber b) message b
                    (log ++ [(_subscriber b, message)])) as H.
      destruct (run (_subscriber b) message b (log ++ [(_subscriber b, message)]));
        simpl in *; subst; exact Hq.
    + destruct (Hq C) as [queue ->]. simpl. intros _. eauto.
  - unfold normal_connect. destruct (_connected b) eqn:C.
    + simpl. intros K; congruence.
    + destruct (Hq C) as [queue Hqueue]. simpl. rewrite Hqueue.
      match goal with |- context [forEach run subscriber queue ?b1 log] =>
        pose proof (forEach_untouched subscriber queue b1 log) as H;
        destruct (forEach run subscriber queue b1 log) as [[] b2 log'|e b2 log'] end;
        simpl in *; subst b2; simpl; intros K; discriminate.
  - unfold normal_disconnect. destruct (_connected b) eqn:C; simpl.
    + intros _. eauto.
    + exact Hq.
  - exact Hq.
Qed.

Lemma normal_run_queueing ops : forall b log,
  queueing b -> queueing (snd (fst (normal_run run ops b log))).
Proof.
  induction ops as [|o ops IH]; intros b log Hq; simpl; [exact Hq|].
  pose proof (normal_step_queueing o b log Hq) as Hs.
  destruct (normal_step run o b log) as [[a b'] log']. simpl in Hs.
  specialize (IH b' log' Hs).
  destruct (normal_run run ops b' log') as [[answers b''] log'']. exact IH.
Qed.

(** X14: with subscribers that do not change the buffer (they may throw,
    and may ask [isConnected]), the normal version is never disconnected
    without a queue, whatever the user has called: a [push] while
    disconnected returns, and calls nobody. *)
Theorem normal_buffer_queues_while_disconnected ops log0 :
  let '(_, b, log) := normal_run run ops createMessageBuffer_normal log0 in
  queueing b
  /\ forall message,
       _connected b = false ->
       exists b', normal_push run message b log = Returned tt b' log.
Proof.
  pose proof (normal_run_queueing ops createMessageBuffer_normal log0) as H.
  destruct (normal_run run ops createMessageBuffer_normal log0) as [[answers b] log].
  simpl in H.
  assert (Hq : queueing b) by (apply H; intros _; simpl; eauto).
  split; [exact Hq|].
  intros message C. destruct (Hq C) as [queue Hqueue].
  unfold normal_push. rewrite C, Hqueue. eauto.
Qed.

End NormalBuffer.

Section CallingBack.

Import Buffer.

Variable run_n : subscribers normal.
Variable run_s : subscribers state.

(** X19: a subscriber that disconnects the buffer when it is called,
    subscribed while one message is queued. The normal version flushes
    to it with [_connected] already set, so the [disconnect] goes
    through, and [connect] then sets [_queue] to [null]: the buffer is
    left disconnected without a queue, and the next [push] throws a
    TypeError. In the state version the buffer is still disconnected
    during the flush: the [disconnect] throws, [connect] fails with that
    error, and the buffer goes on queueing. *)
Theorem disconnect_during_flush subscriber message later :
  (forall m b log, run_n subscriber m b log = normal_disconnect b log) ->
  (forall m st log, run_s subscriber m st log = state_disconnect st log) ->
  normal_run run_n [Push message; Connect subscriber; IsConnected; Push later]
      createMessageBuffer_normal [] =
    ([Done; Done; Status false; Failed (Host TypeError)],
     {| _connected := false; _subscriber := VNull; _queue := None |},
     [(subscriber, message)])
  /\ state_run run_s [Push message; Connect subscriber; IsConnected; Push later]
      createMessageBuffer_state [] =
    ([Done; Failed (Error "Not connected!"); Status false; Done],
     Disconnected [message; later],
     [(subscriber, message)]).
Proof.
  intros Hn Hs. split.
  - simpl. unfold normal_connect. simpl. unfold call_subscriber. rewrite Hn. reflexivity.
  - simpl. unfold state_connect. simpl. unfold call_subscriber. rewrite Hs. reflexivity.
Qed.

(** X20: a subscriber that pushes [echo] when it is handed [message],
    subscribed while [message] is queued. In the normal version the
    buffer is connected during the flush and [echo] is handed to the
    subscriber at once; in the state version [echo] is put on the queue
    of the state that is being left, and is never handed to anyone. *)
Theorem push_during_flush subscriber message echo :
  (forall b log, run_n subscriber message b log = normal_push run_n echo b log) ->
  (forall b log, run_n subscriber echo b log = Returned tt b log) ->
  (forall st log, run_s subscriber message st log = state_push run_s echo st log) ->
  normal_run run_n [Push message; Connect subscriber; IsConnected]
      createMessageBuffer_normal [] =
    ([Done; Done; Status true],
     {| _connected := true; _subscriber := subscriber; _queue := None |},
     [(subscriber, message); (subscriber, echo)])
  /\ state_run run_s [Push message; Connect subscriber; IsConnected]
      createMessageBuffer_state [] =
    ([Done; Done; Status true], Connected subscriber, [(subscriber, message)]).
Proof.
  intros Hn Hecho Hs. split.
  - simpl. unfold normal_connect. simpl. unfold call_subscriber. rewrite Hn.
    unfold normal_push. simpl. unfold call_subscriber. rewrite Hecho. reflexivity.
  - simpl. unfold state_connect. simpl. unfold call_subscriber. rewrite Hs. reflexivity.
Qed.

End CallingBack.

Section QuietSubscribers.

Import Buffer.

Variable throws : list delivery -> value -> value -> option exn.

(** A flush to a quiet subscriber ends the same way whatever buffer it
    is made from. *)
Lemma forEach_quiet_Threw {S1 S2 : Type} subscriber queue (st1 st1' : S1) (st2 : S2) e :
  forall log log',
  forEach (quiet throws) subscriber queue st1 log = Threw e st1' log' ->
  st1' = st1 /\ forEach (quiet throws) subscriber queue st2 log = Threw e st2 log'.
Proof.
  induction queue as [|m queue IH]; intros log log'; simpl; [discriminate|].
  unfold call_subscriber, quiet.
  destruct (throws (log ++ [(subscriber, m)]) subscriber m).
  - intros H. inversion H; subst. auto.
  - apply IH.
Qed.

(** X15: a subscriber that does not call the buffer and throws while
    the queue is flushed to it parts the two versions. Both let the
    exception out of [connect], after the same calls; the normal version
    is then connected to that subscriber (with the queue still there),
    the state version is still disconnected with its queue, and
    [isConnected] answers [true] in the one and [false] in the other. *)
Theorem failed_flush_parts_the_versions subscriber queue b log e b1 log' :
  same b (Disconnected queue) ->
  forEach (quiet throws) subscriber queue
    {| _connected := true; _subscriber := subscriber; _queue := Some queue |} log
    = Threw e b1 log' ->
  normal_run (quiet throws) [Connect subscriber; IsConnected] b log =
    ([Failed e; Status true],
     {| _connected := true; _subscriber := subscriber; _queue := Some queue |}, log')
  /\ state_run (quiet throws) [Connect subscriber; IsConnected] (Disconnected queue) log =
    ([Failed e; Status false], Disconnected queue, log').
Proof.
  intros [C Q] Hflush.
  destruct (forEach_quiet_Threw subscriber queue _ b1 (Disconnected queue) e log log' Hflush)
    as [-> Hs].
  split.
  - simpl. unfold normal_connect. rewrite C. simpl. rewrite Q, Hflush. reflexivity.
  - simpl. unfold state_connect. simpl. rewrite Hs. reflexivity.
Qed.

(** From here on the subscribers do not throw either. *)
Hypothesis accepting : forall log subscriber message, throws log subscriber message = None.

Lemma call_accepting {S : Type} subscriber message (st : S) log :
  call_subscriber (quiet throws) subscriber message st log
  = Returned tt st (log ++ [(subscriber, message)]).
Proof. unfold call_subscriber, quiet. rewrite accepting. reflexivity. Qed.

Lemma forEach_accepting {S : Type} subscriber queue (st : S) : forall log,
  forEach (quiet throws) subscriber queue st log
  = Returned tt st (log ++ map (pair subscriber) queue).
Proof.
  induction queue as [|m queue IH]; intros log; simpl.
  - rewrite app_nil_r. reflexivity.
  - rewrite call_accepting, IH, <- app_assoc. reflexivity.
Qed.

Lemma normal_run_pushes_delivered messages : forall subscriber queue log,
  normal_run (quiet throws) (map Push messages)
    {| _connected := true; _subscriber := subscriber; _queue := queue |} log =
    (map (fun _ => Done) messages,
     {| _connected := true; _subscriber := subscriber; _queue := queue |},
     log ++ map (pair subscriber) messages).
Proof.
  induction messages as [|m messages IH]; intros subscriber queue log; simpl.
  - rewrite app_nil_r. reflexivity.
  - unfold normal_push. simpl. rewrite call_accepting. simpl.
    rewrite IH, <- app_assoc. reflexivity.
Qed.

(** One call: the same answer, the same calls of subscribers, and the
    variables still say what the state says. *)
Lemma step_simulation o b st log :
  same b st ->
  fst (fst (normal_step (quiet throws) o b log)) = fst (fst (state_step (quiet throws) o st log))
  /\ snd (normal_step (quiet throws) o b log) = snd (state_step (quiet throws) o st log)
  /\ same (snd (fst (normal_step (quiet throws) o b log)))
          (snd (fst (state_step (quiet throws) o st log))).
Proof.
  intros Hsame. destruct st as [queue|subscriber0]; destruct Hsame as [C H];
    destruct o as [message|subscriber| |]; simpl;
    unfold normal_push, normal_connect, normal_disconnect, normal_isConnected,
      state_push, state_connect, state_disconnect, state_isConnected,
      getState, setState, connectedState, disconnectedState;
    rewrite ?C, ?H; simpl; rewrite ?H, ?forEach_accepting, ?call_accepting; simpl;
    repeat split; auto.
Qed.

Lemma run_simulation ops : forall b st log,
  same b st ->
  seen (normal_run (quiet throws) ops b log) = seen (state_run (quiet throws) ops st log).
Proof.
  induction ops as [|o ops IH]; intros b st log Hsame; simpl; [reflexivity|].
  destruct (step_simulation o b st log Hsame) as [Ha [Hl Hs]].
  destruct (normal_step (quiet throws) o b log) as [[a b'] log'].
  destruct (state_step (quiet throws) o st log) as [[a2 st'] log2]. simpl in *. subst a2 log2.
  specialize (IH b' st' log' Hs).
  destruct (normal_run (quiet throws) ops b' log') as [[answers b''] log''].
  destruct (state_run (quiet throws) ops st' log') as [[answers2 st''] log2''].
  unfold seen in *. simpl in *. inversion IH; subst. reflexivity.
Qed.

(** X16: with subscribers that do not call the buffer and do not throw,
    a user cannot tell the two versions apart: for every sequence of
    [push], [connect], [disconnect] and [isConnected] the answers
    (errors included) and the calls of subscribers, in order, are the
    same. *)
Theorem versions_indistinguishable ops :
  seen (normal_run (quiet throws) ops createMessageBuffer_normal [])
  = seen (state_run (quiet throws) ops createMessageBuffer_state []).
Proof.
  assert (Hstart : same createMessageBuffer_normal createMessageBuffer_state)
    by (split; reflexivity).
  exact (run_simulation ops _ _ [] Hstart).
Qed.

(** Pushes, a [connect], more pushes, from a disconnected buffer. *)
Lemma normal_run_flush messages later subscriber subscriber0 queue log :
  normal_run (quiet throws) (map Push messages ++ [Connect subscriber] ++ map Push later)
    {| _connected := false; _subscriber := subscriber0; _queue := Some queue |} log =
    (map (fun _ => Done) (map Push messages ++ [Connect subscriber] ++ map Push later),
     {| _connected := true; _subscriber := subscriber; _queue := None |},
     log ++ map (pair subscriber) (queue ++ messages ++ later)).
Proof.
  rewrite normal_run_app, normal_run_pushes_queued, normal_run_app. simpl.
  unfold normal_connect. simpl. rewrite forEach_accepting. simpl.
  rewrite normal_run_pushes_delivered.
  rewrite !map_app, !map_map. simpl. rewrite ?map_map, <- !app_assoc. reflexivity.
Qed.

(** X17: with subscribers that do not call the buffer and do not throw,
    messages pushed before a subscriber connects are handed to it at
    [connect], each once and in the order they were pushed; messages
    pushed afterwards are handed to it as they come. Nothing fails on the
    way. This holds of both versions. *)
Theorem messages_reach_the_subscriber_in_order messages later subscriber :
  let ops := map Push messages ++ [Connect subscriber] ++ map Push later in
  seen (normal_run (quiet throws) ops createMessageBuffer_normal [])
    = (map (fun _ => Done) ops, map (pair subscriber) (messages ++ later))
  /\ seen (state_run (quiet throws) ops createMessageBuffer_state [])
    = (map (fun _ => Done) ops, map (pair subscriber) (messages ++ later)).
Proof.
  intros ops.
  assert (Hn : seen (normal_run (quiet throws) ops createMessageBuffer_normal [])
               = (map (fun _ => Done) ops, map (pair subscriber) (messages ++ later))).
  { unfold ops, createMessageBuffer_normal. rewrite normal_run_flush. reflexivity. }
  split; [exact Hn|].
  rewrite <- Hn. symmetry. apply run_simulation. split; reflexivity.
Qed.

(** X18: with subscribers that do not call the buffer and do not throw,
    [disconnect] starts a new, empty queue: the next subscriber is handed
    the messages pushed since the disconnect, in order, then those pushed
    after it connected, and none from before. This holds of both
    versions. *)
Theorem next_subscriber_gets_only_new_messages b previous messages later subscriber log :
  same b (Connected previous) ->
  let ops := [Disconnect] ++ map Push messages ++ [Connect subscriber] ++ map Push later in
  seen (normal_run (quiet throws) ops b log)
    = (map (fun _ => Done) ops, log ++ map (pair subscriber) (messages ++ later))
  /\ seen (state_run (quiet throws) ops (Connected previous) log)
    = (map (fun _ => Done) ops, log ++ map (pair subscriber) (messages ++ later)).
Proof.
  intros Hsame ops.
  assert (Hn : seen (normal_run (quiet throws) ops b log)
               = (map (fun _ => Done) ops, log ++ map (pair subscriber) (messages ++ later))).
  { destruct Hsame as [C _]. unfold ops.
    change ([Disconnect] ++ map Push messages ++ [Connect subscriber] ++ map Push later)
      with (Disconnect :: (map Push messages ++ [Connect subscriber] ++ map Push later)).
    cbn [normal_run normal_step]. unfold normal_disconnect. rewrite C. cbn [negb done].
    rewrite normal_run_flush. reflexivity. }
  split; [exact Hn|].
  rewrite <- Hn. symmetry. apply run_simulation. exact Hsame.
Qed.

End QuietSubscribers.

(** ** The further theorems at work *)

Module EdgeRuns.

Import Edge Callers.

Lemma handle_hook_not_a_function_witness :
  handle ap (fun _ => ret (VObj Quiet)) (at_ (VObj Flagged)) =
    Thrown TypeError (at_ (VObj Flagged))
      [Reduce (VObj Flagged); Reduced (VObj Quiet); Call (VNum 1) (VObj Flagged) []]
  /\ handle ap (fun _ => ret (VObj Unenterable)) (at_ (VObj Quiet)) =
    Thrown TypeError (at_ (VObj Unenterable))
      [Reduce (VObj Quiet); Reduced (VObj Unenterable); Assign (VObj Unenterable);
       Call (VStr "soon") (VObj Unenterable) []].
Proof.
  unfold ap. split.
  - destruct (handle_hook_not_a_function code 5 (fun _ => ret (VObj Quiet)) (at_ (VObj Flagged))
                (VObj Quiet) (at_ (VObj Flagged)) []) as [H _];
      [reflexivity .. | rewrite (H (VNum 1)); reflexivity].
  - destruct (handle_hook_not_a_function code 5 (fun _ => ret (VObj Unenterable))
                (at_ (VObj Quiet)) (VObj Unenterable) (at_ (VObj Quiet)) []) as [_ H];
      [reflexivity .. | rewrite (H (at_ (VObj Quiet)) [] (VStr "soon")); reflexivity].
Defined.

Lemma invoke_member_not_a_function_witness :
  invoke ap "connected" [] (at_ (VObj Flagged)) =
    Thrown TypeError (at_ (VObj Flagged))
      [Reduce (VObj Flagged); Call (VBool true) (VObj Flagged) []].
Proof.
  unfold ap.
  rewrite (invoke_member_not_a_function code 5 "connected" [] (at_ (VObj Flagged)) (VBool true));
    reflexivity.
Defined.

Lemma invoke_falsy_member_noop_witness :
  invoke ap "idle" [] (at_ (VObj Flagged)) =
    Normal tt (at_ (VObj Flagged)) [Reduce (VObj Flagged); Reduced (VObj Flagged)].
Proof.
  rewrite (invoke_falsy_member_noop ap "idle" [] (at_ (VObj Flagged)));
    [reflexivity|discriminate|discriminate|reflexivity].
Defined.

Lemma invoke_handler_without_return_witness :
  invoke ap "leave" [] (at_ (VObj Quiet)) =
    Normal tt (at_ VUndefined)
      [Reduce (VObj Quiet); Call (VObj leave) (VObj Quiet) []; Reduced VUndefined;
       Assign VUndefined]
  /\ invoke ap "stay" [] (at_ VUndefined) = Thrown TypeError (at_ VUndefined) [Reduce VUndefined].
Proof.
  destruct (invoke_handler_without_return ap "leave" [] (at_ (VObj Quiet)) (VObj leave)
              (at_ (VObj Quiet)) [] (at_ (VObj Quiet)) []) as [H1 H2];
    [reflexivity|reflexivity|reflexivity|discriminate|reflexivity|].
  split; [rewrite H1; reflexivity|exact (H2 "stay" [])].
Defined.

Lemma invoke_handler_throws_witness :
  invoke ap "fail" [] (at_ (VObj Quiet)) =
    Thrown (HostError (VStr "no")) (at_ (VObj Quiet))
      [Reduce (VObj Quiet); Call (VObj fail) (VObj Quiet) []].
Proof.
  rewrite (invoke_handler_throws ap "fail" [] (at_ (VObj Quiet)) (VObj fail)
             (HostError (VStr "no")) (at_ (VObj Quiet)) []); reflexivity.
Defined.

Lemma invoke_handler_stays_witness :
  invoke ap "stay" [VNum 1] (at_ (VObj Quiet)) =
    Normal tt (at_ (VObj Quiet))
      [Reduce (VObj Quiet); Call (VObj stay) (VObj Quiet) [VNum 1]; Reduced (VObj Quiet)].
Proof.
  rewrite (invoke_handler_stays ap "stay" [VNum 1] (at_ (VObj Quiet)) (VObj stay)
             (VObj Quiet) (at_ (VObj Quiet)) []); reflexivity.
Defined.

Lemma createStateMachine_without_entry_witness :
  createStateMachine ap (VNum 0) (at_ (VObj Quiet)) =
    Normal tt (at_ (VNum 0)) [Reduce VNull; Reduced (VNum 0); Assign (VNum 0)]
  /\ createStateMachine ap (VObj Quiet) (at_ VNull) =
    Normal tt (at_ (VObj Quiet)) [Reduce VNull; Reduced (VObj Quiet); Assign (VObj Quiet)].
Proof.
  split.
  - rewrite (createStateMachine_without_entry ap (VNum 0) (at_ (VObj Quiet)));
      [reflexivity|left; reflexivity].
  - rewrite (createStateMachine_without_entry ap (VObj Quiet) (at_ VNull));
      [reflexivity|right; reflexivity].
Defined.

Lemma exit_hook_reentry_never_returns_witness :
  handle (apply_fn code 1000) (fun _ => ret (VObj Quiet)) (at_ (VObj Clingy)) = OutOfFuel.
Proof.
  apply (exit_hook_reentry_never_returns code again
           (fun _ _ => Handle (fun _ => Ret (VObj Quiet)) (Ret VUndefined))
           (VObj Quiet) (Ret VUndefined) (fun _ => ret (VObj Quiet)) (at_ (VObj Clingy)) []);
    reflexivity.
Defined.

Lemma toggle_keeps_heap f this args w : keeps_heap w (Toggle.ap f this args w).
Proof.
  unfold Toggle.ap, apply_fn, apply_with. destruct f; try reflexivity.
  unfold Toggle.code. repeat case_decide; reflexivity.
Defined.

Lemma machine_keeps_heap_witness :
  keeps_heap Demo.inOff (invoke Toggle.ap "toggle" [] Demo.inOff)
  /\ keeps_heap Toggle.start (createStateMachine Toggle.ap (VObj Toggle.Off) Toggle.start).
Proof.
  destruct (machine_keeps_heap Toggle.ap toggle_keeps_heap Demo.inOff) as [_ [H _]].
  destruct (machine_keeps_heap Toggle.ap toggle_keeps_heap Toggle.start) as [_ [_ K]].
  split; [apply H|apply K].
Defined.

Lemma Readme_setState_nullish_witness :
  Readme.setState ap VNull (at_ (VObj Quiet)) = Thrown TypeError (at_ VNull) [Assign VNull].
Proof.
  rewrite (Readme_setState_nullish ap VNull (at_ (VObj Quiet)) (at_ (VObj Quiet)) []);
    [reflexivity|left; reflexivity|reflexivity|reflexivity].
Defined.

Lemma Readme_setState_getState_witness :
  (let* _ := Readme.setState ap (VObj Unenterable) in Readme.getState ) (at_ (VObj Quiet)) =
    Normal (VObj Unenterable) (at_ (VObj Unenterable)) [Assign (VObj Unenterable)].
Proof.
  rewrite (Readme_setState_getState ap (VObj Unenterable) (at_ (VObj Quiet)) (at_ (VObj Quiet)) []);
    [reflexivity|discriminate|discriminate|reflexivity|reflexivity].
Defined.

Lemma Readme_createStateMachine_cases_witness :
  Readme.createStateMachine ap (VObj Quiet) (at_ VNull) =
    Normal tt (at_ (VObj Quiet)) [Assign (VObj Quiet)].
Proof.
  rewrite (Readme_createStateMachine_cases ap (VObj Quiet) (at_ VNull)); reflexivity.
Defined.

Lemma Readme_setState_agrees_with_transition_witness :
  Readme.setState ap (VObj Both) (at_ (VObj Quiet)) = transition ap (VObj Both) (at_ (VObj Quiet)).
Proof.
  apply (Readme_setState_agrees_with_transition ap (VObj Both) (at_ (VObj Quiet)));
    [reflexivity|].
  intros w2 t2 H.
  assert (E : hook ap "exit" (at_ (VObj Quiet)) = Normal tt (at_ (VObj Quiet)) [])
    by reflexivity.
  rewrite E in H. inversion H; subst. reflexivity.
Defined.

Lemma superstitious_untouched subscriber message (b : Buffer.normal) log :
  Buffer.untouched b (Buffer.quiet superstitious subscriber message b log).
Proof. unfold Buffer.quiet. destruct (superstitious log subscriber message); reflexivity. Defined.

Lemma normal_buffer_queues_while_disconnected_witness :
  Buffer.queueing
    (snd (fst (Buffer.normal_run (Buffer.quiet superstitious)
                 [Buffer.Push (VNum 13); Buffer.Connect (VObj mark); Buffer.Disconnect]
                 Buffer.createMessageBuffer_normal []))).
Proof.
  pose proof (normal_buffer_queues_while_disconnected (Buffer.quiet superstitious)
                superstitious_untouched
                [Buffer.Push (VNum 13); Buffer.Connect (VObj mark); Buffer.Disconnect] []) as H.
  destruct (Buffer.normal_run (Buffer.quiet superstitious)
              [Buffer.Push (VNum 13); Buffer.Connect (VObj mark); Buffer.Disconnect]
              Buffer.createMessageBuffer_normal []) as [[answers b] log].
  exact (proj1 H).
Defined.

Lemma failed_flush_parts_the_versions_witness :
  let queue := [VNum 1; VNum 13; VNum 2] in
  let b := {| Buffer._connected := false; Buffer._subscriber := VNull;
              Buffer._queue := Some queue |} in
  fst (fst (Buffer.normal_run (Buffer.quiet superstitious)
              [Buffer.Connect (VObj mark); Buffer.IsConnected] b []))
    = [Buffer.Failed (Buffer.Host (HostError (VStr "unlucky"))); Buffer.Status true]
  /\ fst (fst (Buffer.state_run (Buffer.quiet superstitious)
                 [Buffer.Connect (VObj mark); Buffer.IsConnected] (Buffer.Disconnected queue) []))
    = [Buffer.Failed (Buffer.Host (HostError (VStr "unlucky"))); Buffer.Status false].
Proof.
  intros queue b.
  destruct (failed_flush_parts_the_versions superstitious (VObj mark) queue b []
              (Buffer.Host (HostError (VStr "unlucky")))
              {| Buffer._connected := true; Buffer._subscriber := VObj mark;
                 Buffer._queue := Some queue |}
              [(VObj mark, VNum 1); (VObj mark, VNum 13)]) as [H1 H2];
    [split; reflexivity|reflexivity|].
  rewrite H1, H2. split; reflexivity.
Defined.

Lemma versions_indistinguishable_witness :
  let ops := [Buffer.Push (VNum 1); Buffer.Disconnect; Buffer.Connect (VObj mark);
              Buffer.Connect (VObj stay); Buffer.Push (VNum 2); Buffer.IsConnected] in
  Buffer.seen (Buffer.normal_run (Buffer.quiet easygoing) ops Buffer.createMessageBuffer_normal [])
  = Buffer.seen (Buffer.state_run (Buffer.quiet easygoing) ops Buffer.createMessageBuffer_state []).
Proof.
  intros ops. apply (versions_indistinguishable easygoing); reflexivity.
Defined.

Lemma messages_reach_the_subscriber_in_order_witness :
  snd (Buffer.seen (Buffer.state_run (Buffer.quiet easygoing)
         (map Buffer.Push [VNum 1; VNum 2] ++ [Buffer.Connect (VObj mark)]
          ++ map Buffer.Push [VNum 3])
         Buffer.createMessageBuffer_state []))
  = [(VObj mark, VNum 1); (VObj mark, VNum 2); (VObj mark, VNum 3)].
Proof.
  destruct (messages_reach_the_subscriber_in_order easygoing (fun _ _ _ => eq_refl)
              [VNum 1; VNum 2] [VNum 3] (VObj mark)) as [_ H].
  rewrite H. reflexivity.
Defined.

Lemma next_subscriber_gets_only_new_messages_witness :
  let b := {| Buffer._connected := true; Buffer._subscriber := VObj stay;
              Buffer._queue := None |} in
  snd (Buffer.seen (Buffer.normal_run (Buffer.quiet easygoing)
         ([Buffer.Disconnect] ++ map Buffer.Push [VNum 3] ++ [Buffer.Connect (VObj mark)]
          ++ map Buffer.Push [VNum 4])
         b [(VObj stay, VNum 1); (VObj stay, VNum 2)]))
  = [(VObj stay, VNum 1); (VObj stay, VNum 2); (VObj mark, VNum 3); (VObj mark, VNum 4)].
Proof.
  intros b.
  destruct (next_subscriber_gets_only_new_messages easygoing (fun _ _ _ => eq_refl)
              b (VObj stay) [VNum 3] [VNum 4] (VObj mark)
              [(VObj stay, VNum 1); (VObj stay, VNum 2)]) as [H _];
    [split; reflexivity|].
  rewrite H. reflexivity.
Defined.

Lemma disconnect_during_flush_witness :
  fst (fst (Buffer.normal_run hangs_up_normal
              [Buffer.Push (VNum 1); Buffer.Connect (VObj mark); Buffer.IsConnected;
               Buffer.Push (VNum 2)] Buffer.createMessageBuffer_normal []))
    = [Buffer.Done; Buffer.Done; Buffer.Status false; Buffer.Failed (Buffer.Host TypeError)]
  /\ fst (fst (Buffer.state_run hangs_up_state
                 [Buffer.Push (VNum 1); Buffer.Connect (VObj mark); Buffer.IsConnected;
                  Buffer.Push (VNum 2)] Buffer.createMessageBuffer_state []))
    = [Buffer.Done; Buffer.Failed (Buffer.Error "Not connected!"); Buffer.Status false;
       Buffer.Done].
Proof.
  destruct (disconnect_during_flush hangs_up_normal hangs_up_state (VObj mark) (VNum 1) (VNum 2))
    as [H1 H2]; [reflexivity|reflexivity|].
  rewrite H1, H2. split; reflexivity.
Defined.

Lemma push_during_flush_witness :
  snd (Buffer.normal_run echoes_normal
         [Buffer.Push (VNum 1); Buffer.Connect (VObj mark); Buffer.IsConnected]
         Buffer.createMessageBuffer_normal [])
    = [(VObj mark, VNum 1); (VObj mark, VNum 99)]
  /\ snd (Buffer.state_run echoes_state
            [Buffer.Push (VNum 1); Buffer.Connect (VObj mark); Buffer.IsConnected]
            Buffer.createMessageBuffer_state [])
    = [(VObj mark, VNum 1)].
Proof.
  destruct (push_during_flush echoes_normal echoes_state (VObj mark) (VNum 1) (VNum 99))
    as [H1 H2].
  - intros b log. unfold echoes_normal at 1. simpl.
    unfold Buffer.normal_push, Buffer.call_subscriber, echoes_normal.
    destruct (Buffer._connected b); reflexivity.
  - intros b log. reflexivity.
  - intros st log. unfold echoes_state at 1. simpl.
    unfold Buffer.state_push, Buffer.call_subscriber, echoes_state.
    destruct (Buffer.getState st); reflexivity.
  - rewrite H1, H2. split; reflexivity.
Defined.

End EdgeRuns.
